(** * EQcorrscan: [eqcorrscan/core/match_filter/template.py]

    A shallow embedding of the [Template] class (construction, equality,
    [same_processing], [copy], [construct]) and of [group_templates],
    followed by the properties of these operations.

    Python objects that are shared and mutated (the [Event] handed to the
    constructor) live in an explicit store; [Template] objects carry an
    identity next to their contents, because [x in group] tests identity
    before it tests [==]. *)

From Stdlib Require Import Bool ZArith QArith Qabs String Ascii List Lia
  Permutation Sorted.
Import ListNotations.

Set Implicit Arguments.

(* ===================================================================== *)
(** ** Python values *)
(* ===================================================================== *)

Module Py.

(** A Python [float]: not-a-number, an infinity, or a finite value.  Only
    [==] is ever applied to these numbers, so a finite float is represented
    by its exact value. *)
Inductive pyfloat : Type :=
| NaN
| Inf (negative : bool)
| Fin (q : Q).

(** A number as the template fields and the sample arrays hold it. *)
Inductive pynum : Type :=
| PyInt (z : Z)
| PyFloat (f : pyfloat).

(** [a == b] on floats: [nan] equals nothing, itself included. *)
Definition float_eq (a b : pyfloat) : bool :=
  match a, b with
  | Fin x, Fin y => Qeq_bool x y
  | Inf s, Inf t => Bool.eqb s t
  | _, _ => false
  end.

(** Python compares an [int] with a [float] by exact value. *)
Definition num_val (a : pynum) : pyfloat :=
  match a with
  | PyInt z => Fin (inject_Z z)
  | PyFloat f => f
  end.

Definition num_eq (a b : pynum) : bool := float_eq (num_val a) (num_val b).

(** A field that holds a number or [None]. *)
Definition param : Type := option pynum.

Definition param_eq (a b : param) : bool :=
  match a, b with
  | None, None => true
  | Some x, Some y => num_eq x y
  | _, _ => false
  end.

(** [a == b] on [str] or [None]. *)
Definition name_eq (a b : option string) : bool :=
  match a, b with
  | None, None => true
  | Some x, Some y => String.eqb x y
  | _, _ => false
  end.

Definition is_nan (a : pynum) : bool :=
  match a with
  | PyFloat NaN => true
  | _ => false
  end.

Definition param_is_nan (a : param) : bool :=
  match a with
  | Some x => is_nan x
  | None => false
  end.

(** The exceptions the module can raise. *)
Inductive exn : Type :=
| ValueError
| MatchFilterError
| AttributeError
| NotImplementedError
| IndexError
| OtherError (msg : string).

Inductive result (A : Type) : Type :=
| Ok (a : A)
| Raise (e : exn).

Arguments Ok {A} a.
Arguments Raise {A} e.

Definition bind {A B : Type} (m : result A) (k : A -> result B) : result B :=
  match m with
  | Ok a => k a
  | Raise e => Raise e
  end.

(** [seq[0]] *)
Definition first {A : Type} (l : list A) : result A :=
  match l with
  | x :: _ => Ok x
  | [] => Raise IndexError
  end.

End Py.

Import Py.

Notation "x <- m ;; k" := (bind m (fun x => k))
  (at level 61, m at next level, right associativity).

(* ===================================================================== *)
(** ** The regular expression of template names *)
(* ===================================================================== *)

(** One character of the class [[-A-Za-z_0-9]]. *)
Definition ident_char (c : ascii) : bool :=
  let n := nat_of_ascii c in
  (n =? 45)%nat
  || ((65 <=? n)%nat && (n <=? 90)%nat)
  || ((97 <=? n)%nat && (n <=? 122)%nat)
  || (n =? 95)%nat
  || ((48 <=? n)%nat && (n <=? 57)%nat).

Definition newline : ascii := ascii_of_nat 10.

(** [re.match(r"^[-A-Za-z_0-9]+$", s)] as a truth value.  In Python [$]
    matches at the end of the string and also just before a newline that
    ends the string.  [seen] records that one character of the class has
    been consumed. *)
Fixpoint match_ident (seen : bool) (s : string) : bool :=
  match s with
  | EmptyString => seen
  | String c rest =>
      if ident_char c then match_ident true rest
      else seen && Ascii.eqb c newline
           && match rest with EmptyString => true | _ => false end
  end.

Definition name_regex_match (s : string) : bool := match_ident false s.

(* ===================================================================== *)
(** ** ObsPy objects: traces, streams, events *)
(* ===================================================================== *)

Module Obspy.

(** A [Trace]: the entries of [tr.stats] that the module reads, and the
    sample array [tr.data]. *)
Record Trace : Type := {
  network : string;
  station : string;
  location : string;
  channel : string;
  starttime : Z;
  endtime : Z;
  sampling_rate : pynum;
  delta : pynum;
  npts : Z;
  calib : pynum;
  data : list pynum
}.

(** [Stream.sort()] sorts with the keys network, station, location, channel,
    starttime, endtime: one stable [list.sort] per key, last key first. *)
Inductive sort_key : Type :=
| by_network | by_station | by_location | by_channel
| by_starttime | by_endtime.

Definition sort_keys : list sort_key :=
  [by_network; by_station; by_location; by_channel; by_starttime; by_endtime].

Definition key_leb (k : sort_key) (a b : Trace) : bool :=
  match k with
  | by_network => String.leb (network a) (network b)
  | by_station => String.leb (station a) (station b)
  | by_location => String.leb (location a) (location b)
  | by_channel => String.leb (channel a) (channel b)
  | by_starttime => (starttime a <=? starttime b)%Z
  | by_endtime => (endtime a <=? endtime b)%Z
  end.

Section StableSort.
Variable A : Type.
Variable leb : A -> A -> bool.

Fixpoint insert_by (x : A) (l : list A) : list A :=
  match l with
  | [] => [x]
  | y :: l' => if leb x y then x :: y :: l' else y :: insert_by x l'
  end.

(** A stable ascending sort: of two elements with equal keys the one
    that came first stays first. *)
Definition stable_sort (l : list A) : list A := fold_right insert_by [] l.
End StableSort.

Definition stream_sort (trs : list Trace) : list Trace :=
  fold_left (fun acc k => stable_sort (key_leb k) acc) (rev sort_keys) trs.

(** [np.array_equal(a, b)]: same shape and all elements equal. *)
Definition array_equal (a b : list pynum) : bool :=
  (length a =? length b)%nat
  && forallb (fun p => num_eq (fst p) (snd p)) (combine a b).

Record CreationInfo : Type := {
  agency : option string;
  author : option string
}.

Record Comment : Type := {
  text : string;
  creation_info : option CreationInfo
}.

(** An [Event]: its resource identifier, its comments, and the rest of its
    content (origins, picks, magnitudes, ...) as named attributes, which
    this module never reads itself. *)
Record Event : Type := {
  resource_id : string;
  comments : list Comment;
  attributes : list (string * param)
}.

End Obspy.

Import Obspy.

(** What the attribute [st] of a template can hold. *)
Inductive waveform : Type :=
| StNone
| StStream (traces : list Trace)
| StTrace (tr : Trace).

(** The store of [Event] objects; a reference is an index into it. *)
Definition loc : Type := nat.
Definition heap : Type := list Event.

Definition deref (h : heap) (l : loc) : option Event := nth_error h l.

Fixpoint store (h : heap) (l : loc) (e : Event) : heap :=
  match h, l with
  | [], _ => []
  | _ :: h', O => e :: h'
  | x :: h', S l' => x :: store h' l' e
  end.

(** A fresh object is placed after all existing ones. *)
Definition alloc (h : heap) (e : Event) : loc * heap :=
  (length h, h ++ [e]).

(* ===================================================================== *)
(** ** class Template *)
(* ===================================================================== *)

(** The instance dictionary of a [Template].  [event] is [None] or a
    reference into the store. *)
Record Template : Type := {
  name : option string;
  st : waveform;
  lowcut : param;
  highcut : param;
  samp_rate : param;
  filt_order : param;
  process_length : param;
  prepick : param;
  event : option loc
}.

(** The keys of [self.__dict__], in the order [__init__] creates them. *)
Inductive key : Type :=
| k_name | k_st | k_lowcut | k_highcut | k_samp_rate | k_filt_order
| k_process_length | k_prepick | k_event.

Definition dict_keys : list key :=
  [k_name; k_st; k_lowcut; k_highcut; k_samp_rate; k_filt_order;
   k_process_length; k_prepick; k_event].

(** The entries of [tr.stats] that [__eq__] compares, in its order. *)
Inductive trkey : Type :=
| s_network | s_station | s_channel | s_location | s_starttime | s_endtime
| s_sampling_rate | s_delta | s_npts | s_calib.

Definition trkeys : list trkey :=
  [s_network; s_station; s_channel; s_location; s_starttime; s_endtime;
   s_sampling_rate; s_delta; s_npts; s_calib].

(** [tr.stats[trkey] != oth_tr.stats[trkey]] *)
Definition stats_differ (k : trkey) (tr oth : Trace) : bool :=
  negb match k with
       | s_network => String.eqb (network tr) (network oth)
       | s_station => String.eqb (station tr) (station oth)
       | s_channel => String.eqb (channel tr) (channel oth)
       | s_location => String.eqb (location tr) (location oth)
       | s_starttime => (starttime tr =? starttime oth)%Z
       | s_endtime => (endtime tr =? endtime oth)%Z
       | s_sampling_rate => num_eq (sampling_rate tr) (sampling_rate oth)
       | s_delta => num_eq (delta tr) (delta oth)
       | s_npts => (npts tr =? npts oth)%Z
       | s_calib => num_eq (calib tr) (calib oth)
       end.

(** The body of the loop over [zip(self.st.sort(), other.st.sort())]:
    [false] where the loop returns [False]. *)
Definition trace_pair_agrees (p : Trace * Trace) : bool :=
  let (tr, oth_tr) := p in
  array_equal (data tr) (data oth_tr)
  && forallb (fun k => negb (stats_differ k tr oth_tr)) trkeys.

(** The branch [key == 'st'] of [__eq__]. *)
Definition st_agrees (self_st other_st : waveform) : bool :=
  match self_st, other_st with
  | StStream a, StStream b =>
      forallb trace_pair_agrees (combine (stream_sort a) (stream_sort b))
  | StStream _, _ => false
  | _, StStream _ => false
  | _, _ => true
  end.

(** [self.__dict__[key] == other.__dict__[key]] for the remaining keys. *)
Definition entry_eq (k : key) (self other : Template) : bool :=
  match k with
  | k_name => name_eq (name self) (name other)
  | k_lowcut => param_eq (lowcut self) (lowcut other)
  | k_highcut => param_eq (highcut self) (highcut other)
  | k_samp_rate => param_eq (samp_rate self) (samp_rate other)
  | k_filt_order => param_eq (filt_order self) (filt_order other)
  | k_process_length => param_eq (process_length self) (process_length other)
  | k_prepick => param_eq (prepick self) (prepick other)
  | k_st | k_event => true
  end.

(** [Template.same_processing]: the keys name, st, prepick and event are
    skipped ([template_info] is never a key of the dictionary). *)
Definition skipped (k : key) : bool :=
  match k with
  | k_name | k_st | k_prepick | k_event => true
  | _ => false
  end.

Definition same_processing (self other : Template) : bool :=
  forallb (fun k => if skipped k then true else entry_eq k self other)
          dict_keys.

Section TemplateClass.

(** [_test_event_similarity] of [eqcorrscan/core/match_filter/helpers.py],
    a module that is not among the sources at hand: a parameter.  It
    compares two events and answers with a truth value; [__eq__] calls it
    with the default arguments [verbose=False], [shallow=False]. *)
Variable test_event_similarity : Event -> Event -> bool.

(** The event an attribute refers to, when it refers to an [Event]. *)
Definition get_event (h : heap) (t : Template) : option Event :=
  match event t with
  | Some l => deref h l
  | None => None
  end.

(** The branch [key == 'event'] of [__eq__]. *)
Definition event_agrees (h : heap) (self other : Template) : bool :=
  match get_event h self, get_event h other with
  | Some e, Some e' => test_event_similarity e e'
  | Some _, None => false
  | None, Some _ => false
  | None, None => true
  end.

(** [Template.__eq__(self, other)]: the loop over the keys returns
    [False] at the first key that disagrees and [True] after the last. *)
Definition key_agrees (h : heap) (self other : Template) (k : key) : bool :=
  match k with
  | k_st => st_agrees (st self) (st other)
  | k_event => event_agrees h self other
  | _ => entry_eq k self other
  end.

Definition template_eq (h : heap) (self other : Template) : bool :=
  forallb (key_agrees h self other) dict_keys.

(** [Template.__ne__] *)
Definition template_ne (h : heap) (self other : Template) : bool :=
  negb (template_eq h self other).

End TemplateClass.

(* ===================================================================== *)
(** ** Construction, copy and attribute assignment *)
(* ===================================================================== *)

(** The text of the provenance comment. *)
Definition marker (temp_name : string) : string :=
  ("eqcorrscan_template_" ++ temp_name)%string.

(** [name_regex] check of [__init__]: [None] is not checked. *)
Definition name_accepted (name : option string) : bool :=
  match name with
  | Some n => name_regex_match n
  | None => true
  end.

Definition temp_name_of (name : option string) : string :=
  match name with
  | None => "unnamed"%string
  | Some n => n
  end.

(** [if st and samp_rate is not None: for tr in st: ...].  A [Stream] is
    walked trace by trace.  A [Trace] is true when it has samples, and
    iterating over it yields its samples, which have no [stats]. *)
Definition check_sampling_rates (st : waveform) (samp_rate : param)
  : result unit :=
  match samp_rate with
  | None => Ok tt
  | Some rate =>
      match st with
      | StNone => Ok tt
      | StStream trs =>
          if forallb (fun tr => num_eq (sampling_rate tr) rate) trs
          then Ok tt else Raise MatchFilterError
      | StTrace tr =>
          match data tr with
          | [] => Ok tt
          | _ :: _ => Raise AttributeError
          end
      end
  end.

Definition has_comment (txt : string) (e : Event) : bool :=
  existsb (String.eqb txt) (map text (comments e)).

Definition append_comment (e : Event) (c : Comment) : Event :=
  {| resource_id := resource_id e;
     comments := comments e ++ [c];
     attributes := attributes e |}.

Section Construction.

(** [getpass.getuser()] *)
Variable getuser : string.

Definition marker_comment (temp_name : string) : Comment :=
  {| text := marker temp_name;
     creation_info := Some {| agency := Some "eqcorrscan"%string;
                              author := Some getuser |} |}.

(** The block [if event is not None: ...] of [__init__], acting on the
    store.  A reference that is not an [Event] has no [comments]. *)
Definition attach_event (h : heap) (temp_name : string) (event : option loc)
  : result heap :=
  match event with
  | None => Ok h
  | Some l =>
      match deref h l with
      | None => Raise AttributeError
      | Some e =>
          if has_comment (marker temp_name) e then Ok h
          else Ok (store h l (append_comment e (marker_comment temp_name)))
      end
  end.

(** [Template.__init__]: the new object and the store after the call. *)
Definition init (h : heap) (name : option string) (st : waveform)
    (lowcut highcut samp_rate filt_order process_length prepick : param)
    (event : option loc) : result (Template * heap) :=
  if negb (name_accepted name) then Raise ValueError
  else
    let temp_name := temp_name_of name in
    _ <- check_sampling_rates st samp_rate ;;
    h' <- attach_event h temp_name event ;;
    Ok ({| name := name; st := st; lowcut := lowcut; highcut := highcut;
           samp_rate := samp_rate; filt_order := filt_order;
           process_length := process_length; prepick := prepick;
           event := event |}, h').

(** The arguments of one call besides the name and the event. *)
Record init_args : Type := {
  arg_st : waveform;
  arg_lowcut : param;
  arg_highcut : param;
  arg_samp_rate : param;
  arg_filt_order : param;
  arg_process_length : param;
  arg_prepick : param
}.

(** Constructing again and again under one name with one event, each
    call with arguments of its own.  The store after the last call, or
    the first exception. *)
Fixpoint init_many (h : heap) (name : option string) (event : option loc)
    (calls : list init_args) : result heap :=
  match calls with
  | [] => Ok h
  | c :: rest =>
      r <- init h name (arg_st c) (arg_lowcut c) (arg_highcut c)
             (arg_samp_rate c) (arg_filt_order c) (arg_process_length c)
             (arg_prepick c) event ;;
      init_many (snd r) name event rest
  end.

End Construction.

(** Attribute assignment, [template.<field> = v]. *)
Definition set_name (v : option string) (t : Template) : Template :=
  {| name := v; st := st t; lowcut := lowcut t; highcut := highcut t;
     samp_rate := samp_rate t; filt_order := filt_order t;
     process_length := process_length t; prepick := prepick t;
     event := event t |}.

Definition set_st (v : waveform) (t : Template) : Template :=
  {| name := name t; st := v; lowcut := lowcut t; highcut := highcut t;
     samp_rate := samp_rate t; filt_order := filt_order t;
     process_length := process_length t; prepick := prepick t;
     event := event t |}.

Definition set_prepick (v : param) (t : Template) : Template :=
  {| name := name t; st := st t; lowcut := lowcut t; highcut := highcut t;
     samp_rate := samp_rate t; filt_order := filt_order t;
     process_length := process_length t; prepick := v;
     event := event t |}.

Definition set_event (v : option loc) (t : Template) : Template :=
  {| name := name t; st := st t; lowcut := lowcut t; highcut := highcut t;
     samp_rate := samp_rate t; filt_order := filt_order t;
     process_length := process_length t; prepick := prepick t;
     event := v |}.

(** Assignment to one of the processing parameters. *)
Definition set_processing (k : key) (v : param) (t : Template) : Template :=
  {| name := name t; st := st t;
     lowcut := match k with k_lowcut => v | _ => lowcut t end;
     highcut := match k with k_highcut => v | _ => highcut t end;
     samp_rate := match k with k_samp_rate => v | _ => samp_rate t end;
     filt_order := match k with k_filt_order => v | _ => filt_order t end;
     process_length :=
       match k with k_process_length => v | _ => process_length t end;
     prepick := prepick t; event := event t |}.

Definition processing_entry (k : key) (t : Template) : param :=
  match k with
  | k_lowcut => lowcut t
  | k_highcut => highcut t
  | k_samp_rate => samp_rate t
  | k_filt_order => filt_order t
  | k_process_length => process_length t
  | _ => None
  end.

(** [Template.copy], that is [copy.deepcopy(self)]: the event is copied
    into a fresh object; numbers, strings and the waveform are carried by
    value in this embedding. *)
Definition copy (h : heap) (self : Template) : Template * heap :=
  match event self with
  | Some l =>
      match deref h l with
      | Some e => let (l', h') := alloc h e in (set_event (Some l') self, h')
      | None => (self, h)
      end
  | None => (self, h)
  end.

(** [np.any(tr.data.astype(np.float16))] sample by sample: conversion to
    half precision rounds to nearest, ties to even, so exactly the
    magnitudes up to [2^-25] become zero. *)
Definition nonzero_float16 (x : pynum) : bool :=
  match num_val x with
  | NaN => true
  | Inf _ => true
  | Fin q => negb (Qle_bool (Qabs q) (1 # 33554432))
  end.

Definition any_float16 (tr : Trace) : bool := existsb nonzero_float16 (data tr).

(** [for tr in st: if not np.any(...): st.remove(tr)].  The iterator of an
    ObsPy [Stream] walks a copy of the trace list, so every trace is
    visited once; [remove] drops the first trace equal to the visited one,
    whose samples are then zero as well. *)
Definition drop_zero_traces (st : list Trace) : list Trace :=
  filter any_float16 st.

Definition unsupported_methods : list string :=
  ["from_meta_file"; "from_seishub"; "from_client";
   "multi_template_gen"]%string.

(** [Template.construct].  [template_gen] stands for the outcome of the
    call [template_gen.template_gen(...)], a function of another module:
    an exception, or the triple [(streams, events, process_lengths)]. *)
Definition construct (self : Template) (method : string)
    (name : option string)
    (lowcut highcut samp_rate filt_order prepick : param)
    (template_gen : result (list (list Trace) * list (option loc) * list param))
  : result Template :=
  if existsb (String.eqb method) unsupported_methods
  then Raise NotImplementedError
  else
    out <- template_gen ;;
    let '(streams, events, process_lengths) := out in
    st <- first streams ;;
    event <- first events ;;
    process_length <- first process_lengths ;;
    Ok {| name := name; st := StStream (drop_zero_traces st);
          lowcut := lowcut; highcut := highcut; samp_rate := samp_rate;
          filt_order := filt_order; process_length := process_length;
          prepick := prepick; event := event |}.

(* ===================================================================== *)
(** ** group_templates *)
(* ===================================================================== *)

(** A [Template] object: its identity and its instance dictionary. *)
Record object : Type := {
  obj_id : nat;
  obj_dict : Template
}.

Fixpoint remove_first_empty {A : Type} (gs : list (list A)) : list (list A) :=
  match gs with
  | [] => []
  | [] :: gs' => gs'
  | g :: gs' => g :: remove_first_empty gs'
  end.

(** The closing loop [for group in template_groups: if len(group) == 0:
    template_groups.remove(group)]: a list iterator is an index into the
    list that is being changed. *)
Fixpoint drop_loop {A : Type} (fuel i : nat) (gs : list (list A))
  : list (list A) :=
  match fuel with
  | O => gs
  | S fuel' =>
      match nth_error gs i with
      | None => gs
      | Some g =>
          if (length g =? 0)%nat
          then drop_loop fuel' (S i) (remove_first_empty gs)
          else drop_loop fuel' (S i) gs
      end
  end.

Definition drop_empty_groups {A : Type} (gs : list (list A)) : list (list A) :=
  drop_loop (length gs) 0 gs.

Section Grouping.

Variable test_event_similarity : Event -> Event -> bool.
Variable h : heap.

Definition obj_eq (a b : object) : bool :=
  template_eq test_event_similarity h (obj_dict a) (obj_dict b).

Definition obj_same_processing (a b : object) : bool :=
  same_processing (obj_dict a) (obj_dict b).

(** [x in group]: an item matches when it is [x] or when [item == x]
    (CPython 3.9 and later put the item on the left of [==]). *)
Definition list_contains (x : object) (group : list object) : bool :=
  existsb (fun item => (obj_id item =? obj_id x)%nat || obj_eq item x) group.

(** [master.same_processing(slave) and master != slave] *)
Definition is_slave (master slave : object) : bool :=
  obj_same_processing master slave && negb (obj_eq master slave).

Definition new_group (templates : list object) (master : object)
  : list object :=
  master :: filter (is_slave master) templates.

(** One round of the loop [for master in templates]. *)
Definition visit (templates : list object)
    (template_groups : list (list object)) (master : object)
  : list (list object) :=
  if existsb (list_contains master) template_groups then template_groups
  else template_groups ++ [new_group templates master].

Definition build_groups (templates : list object) : list (list object) :=
  fold_left (visit templates) templates [].

Definition group_templates (templates : list object)
  : list (list object) :=
  drop_empty_groups (build_groups templates).

End Grouping.

(* ===================================================================== *)
(** ** Notions used to state the properties *)
(* ===================================================================== *)

(** No [nan] among the numbers that [__eq__] compares. *)
Definition trace_nan_free (tr : Trace) : bool :=
  forallb (fun x => negb (is_nan x)) (data tr)
  && negb (is_nan (sampling_rate tr))
  && negb (is_nan (delta tr))
  && negb (is_nan (calib tr)).

Definition st_nan_free (w : waveform) : bool :=
  match w with
  | StStream trs => forallb trace_nan_free trs
  | _ => true
  end.

Definition processing_nan_free (t : Template) : bool :=
  negb (param_is_nan (lowcut t))
  && negb (param_is_nan (highcut t))
  && negb (param_is_nan (samp_rate t))
  && negb (param_is_nan (filt_order t))
  && negb (param_is_nan (process_length t)).

Definition nan_free (t : Template) : bool :=
  processing_nan_free t
  && negb (param_is_nan (prepick t))
  && st_nan_free (st t).

(** The five processing parameters. *)
Definition processing_keys : list key :=
  [k_lowcut; k_highcut; k_samp_rate; k_filt_order; k_process_length].

Section WellFormed.

Variable test_event_similarity : Event -> Event -> bool.

(** The event of the template, if any, is similar to itself. *)
Definition event_self_similar (h : heap) (t : Template) : bool :=
  match get_event h t with
  | Some e => test_event_similarity e e
  | None => true
  end.

(** A well-formed record: no [nan], and an event that the comparator of
    events accepts as similar to itself. *)
Definition well_formed (h : heap) (t : Template) : bool :=
  nan_free t && event_self_similar h t.

(** The comparator of events gives the same answer in both directions
    on the events of two templates. *)
Definition events_commute (h : heap) (a b : Template) : Prop :=
  match get_event h a, get_event h b with
  | Some e, Some e' => test_event_similarity e e' = test_event_similarity e' e
  | _, _ => True
  end.

End WellFormed.

(** How many comments of the event carry the given text. *)
Definition comment_count (txt : string) (e : Event) : nat :=
  length (filter (String.eqb txt) (map text (comments e))).

(** A total preorder given as a boolean test. *)
Definition total_order {A : Type} (leb : A -> A -> bool) : Prop :=
  (forall a b, leb a b = true \/ leb b a = true)
  /\ (forall a b c, leb a b = true -> leb b c = true -> leb a c = true).

(** The order "by the first key, then by the second". *)
Definition lex_leb {A : Type} (leb1 leb2 : A -> A -> bool) (a b : A) : bool :=
  leb1 a b && (negb (leb1 b a) || leb2 a b).

(** The order by a list of sort keys, most significant key first. *)
Fixpoint lex_key_leb (ks : list sort_key) (a b : Trace) : bool :=
  match ks with
  | [] => true
  | k :: ks' => lex_leb (key_leb k) (lex_key_leb ks') a b
  end.

(** [l1] is [l2] with some elements left out: same relative order. *)
Inductive subseq {A : Type} : list A -> list A -> Prop :=
| subseq_nil : subseq [] []
| subseq_keep x l1 l2 : subseq l1 l2 -> subseq (x :: l1) (x :: l2)
| subseq_skip x l1 l2 : subseq l1 l2 -> subseq l1 (x :: l2).

Section GroupingNotions.

Variable test_event_similarity : Event -> Event -> bool.
Variable h : heap.

(** The masters that [group_templates] picks, with the groups left out. *)
Definition pick (templates : list object) (masters : list object)
    (master : object) : list object :=
  if existsb (list_contains test_event_similarity h master)
             (map (new_group test_event_similarity h templates) masters)
  then masters else masters ++ [master].

Definition masters_of (templates : list object) : list object :=
  fold_left (pick templates) templates [].

(** When [master] is visited after [earlier], it is not found in the
    group of [earlier]. *)
Definition not_in_group_of (templates : list object)
    (earlier master : object) : Prop :=
  list_contains test_event_similarity h master
    (new_group test_event_similarity h templates earlier) = false.

End GroupingNotions.

(** [reps] holds one template of every same-processing class of
    [templates], and no class twice. *)
Definition class_representatives (templates reps : list object) : Prop :=
  incl reps templates
  /\ (forall x, In x templates ->
        exists r, In r reps /\ obj_same_processing r x = true)
  /\ ForallOrdPairs (fun r r' => obj_same_processing r r' = false) reps.

(** Equality of creation infos, comments and attributes, field by field. *)
Definition creation_info_eq (a b : option CreationInfo) : bool :=
  match a, b with
  | None, None => true
  | Some x, Some y =>
      name_eq (agency x) (agency y) && name_eq (author x) (author y)
  | _, _ => false
  end.

Definition comment_eq (a b : Comment) : bool :=
  String.eqb (text a) (text b)
  && creation_info_eq (creation_info a) (creation_info b).

Definition attribute_eq (a b : string * param) : bool :=
  String.eqb (fst a) (fst b) && param_eq (snd a) (snd b).

Fixpoint list_eqb {A : Type} (eqb : A -> A -> bool) (l1 l2 : list A) : bool :=
  match l1, l2 with
  | [], [] => true
  | x :: l1', y :: l2' => eqb x y && list_eqb eqb l1' l2'
  | _, _ => false
  end.

(** Modelled from the spec: [_test_event_similarity], whose source is
    missing, as the comparator of events that "ignores source-assigned
    resource identifiers but compares all other event content".  It
    serves where a concrete comparator has to be named. *)
Definition event_similarity_spec (e1 e2 : Event) : bool :=
  list_eqb comment_eq (comments e1) (comments e2)
  && list_eqb attribute_eq (attributes e1) (attributes e2).

(* ===================================================================== *)
(** ** Sample objects *)
(* ===================================================================== *)

Module Sample.

Definition trace (chan : string) (samples : list pynum) : Trace :=
  {| network := "NZ"; station := "WEL"; location := "10"; channel := chan;
     starttime := 0; endtime := 10;
     sampling_rate := PyFloat (Fin (inject_Z 100));
     delta := PyFloat (Fin (1 # 100));
     npts := Z.of_nat (length samples);
     calib := PyFloat (Fin (inject_Z 1)); data := samples |}.

Definition tr_z : Trace := trace "HHZ" [PyInt 1; PyInt (-2); PyInt 3].
Definition tr_n : Trace := trace "HHN" [PyInt 4; PyInt 5; PyInt 6].

(** [Template(name=nm, st=w, lowcut=2.0, highcut=hc, samp_rate=100,
    filt_order=4, process_length=3600, prepick=0.5)] *)
Definition template (nm : string) (w : waveform) (hc : Z) : Template :=
  {| name := Some nm; st := w;
     lowcut := Some (PyFloat (Fin (inject_Z 2)));
     highcut := Some (PyFloat (Fin (inject_Z hc)));
     samp_rate := Some (PyInt 100);
     filt_order := Some (PyInt 4);
     process_length := Some (PyInt 3600);
     prepick := Some (PyFloat (Fin (1 # 2)));
     event := None |}.

Definition stream : waveform := StStream [tr_z; tr_n].

Definition obj (i : nat) (t : Template) : object :=
  {| obj_id := i; obj_dict := t |}.

Definition A : object := obj 1 (template "a" stream 8).
Definition B : object := obj 2 (template "b" stream 8).
Definition C : object := obj 3 (template "c" stream 10).

(** A template whose [prepick] is [float('nan')]. *)
Definition M_nan : object :=
  obj 1 (set_prepick (Some (PyFloat NaN)) (template "m" StNone 8)).

(** Two equal templates behind a third one with the same processing. *)
Definition M : object := obj 1 (template "m" StNone 8).
Definition X : object := obj 2 (template "x" StNone 8).
Definition Y : object := obj 3 (template "x" StNone 8).

Definition an_event : Event :=
  {| resource_id := "smi:local/1"; comments := [];
     attributes := [("event_type"%string, None)] |}.

Definition with_event : Template :=
  set_event (Some 0%nat) (template "a" stream 8).

(** The arguments of [Template(st=..., lowcut=2.0, highcut=8.0,
    samp_rate=100, filt_order=4, process_length=3600, prepick=0.5)]
    and of a call that gives nothing but name and event. *)
Definition full_call : init_args :=
  {| arg_st := stream;
     arg_lowcut := Some (PyFloat (Fin (inject_Z 2)));
     arg_highcut := Some (PyFloat (Fin (inject_Z 8)));
     arg_samp_rate := Some (PyInt 100);
     arg_filt_order := Some (PyInt 4);
     arg_process_length := Some (PyInt 3600);
     arg_prepick := Some (PyFloat (Fin (1 # 2))) |}.

Definition bare_call : init_args :=
  {| arg_st := StNone; arg_lowcut := None; arg_highcut := None;
     arg_samp_rate := None; arg_filt_order := None;
     arg_process_length := None; arg_prepick := None |}.

End Sample.

(* ===================================================================== *)
(** ** Reading, and the pruning loop of construct *)
(* ===================================================================== *)

(** Every character is one of the class [[-A-Za-z_0-9]]. *)
Fixpoint all_ident (s : string) : bool :=
  match s with
  | EmptyString => true
  | String c rest => ident_char c && all_ident rest
  end.

(** [isinstance(st, Stream)] *)
Definition is_stream (w : waveform) : bool :=
  match w with
  | StStream _ => true
  | _ => false
  end.

Definition IOError : exn := OtherError "IOError".

(** [self.__dict__[key] = other.__dict__[key]] *)
Definition assign_entry (other : Template) (self : Template) (k : key)
  : Template :=
  {| name := match k with k_name => name other | _ => name self end;
     st := match k with k_st => st other | _ => st self end;
     lowcut := match k with k_lowcut => lowcut other | _ => lowcut self end;
     highcut :=
       match k with k_highcut => highcut other | _ => highcut self end;
     samp_rate :=
       match k with k_samp_rate => samp_rate other | _ => samp_rate self end;
     filt_order :=
       match k with
       | k_filt_order => filt_order other
       | _ => filt_order self
       end;
     process_length :=
       match k with
       | k_process_length => process_length other
       | _ => process_length self
       end;
     prepick :=
       match k with k_prepick => prepick other | _ => prepick self end;
     event := match k with k_event => event other | _ => event self end |}.

(** [Template.read].  [tribe] stands for the outcome of [Tribe().read
    (filename)], a class of another module: an exception, or the templates
    of the archive.  [tribe[0]] is looked up anew for every key. *)
Definition read (self : Template) (tribe : result (list Template))
  : result Template :=
  templates <- tribe ;;
  if (1 <? length templates)%nat then Raise IOError
  else
    fold_left (fun acc k => self' <- acc ;;
                            t0 <- first templates ;;
                            Ok (assign_entry t0 self' k))
              dict_keys (Ok self).

Section Reading.

Variable getuser : string.

(** [read_template(fname)]: a [Template()] made with the defaults, then
    [read]. *)
Definition read_template (h : heap) (tribe : result (list Template))
  : result (Template * heap) :=
  r <- init getuser h None StNone None None None None None None None ;;
  t <- read (fst r) tribe ;;
  Ok (t, snd r).

End Reading.

Section PruningLoop.

(** [Trace.__eq__] of ObsPy, taken as given. *)
Variable trace_eq : Trace -> Trace -> bool.

(** [self.traces.remove(tr)] on traces that carry their identity: the
    first trace that is [tr] or equals it goes; none such is an error. *)
Fixpoint remove_trace (tr : nat * Trace) (l : list (nat * Trace))
  : result (list (nat * Trace)) :=
  match l with
  | [] => Raise ValueError
  | x :: l' =>
      if (fst x =? fst tr)%nat || trace_eq (snd x) (snd tr) then Ok l'
      else l'' <- remove_trace tr l' ;; Ok (x :: l'')
  end.

(** The loop [for tr in st: if not np.any(...): st.remove(tr)] as it
    runs: the traces visited are those the stream held when the loop
    began, the stream shrinks underneath. *)
Definition pruning_loop (st : list (nat * Trace))
  : result (list (nat * Trace)) :=
  fold_left (fun acc tr => cur <- acc ;;
                           if any_float16 (snd tr) then Ok cur
                           else remove_trace tr cur)
            st (Ok st).

End PruningLoop.

(** Equality of traces on the samples and on all entries of the header
    that a [Trace] of this embedding has. *)
Definition trace_equal (a b : Trace) : bool := trace_pair_agrees (a, b).

Module Cases.

(** A trace of zeros, and one whose samples vanish in half precision. *)
Definition tr_zero : Trace := Sample.trace "HHE" [PyInt 0; PyInt 0].
Definition tr_tiny : Trace :=
  Sample.trace "HH1" [PyFloat (Fin (1 # 100000000))].

(** A trace sampled at 50 Hz. *)
Definition tr_slow : Trace :=
  {| network := "NZ"; station := "WEL"; location := "10"; channel := "LHZ";
     starttime := 0; endtime := 10;
     sampling_rate := PyFloat (Fin (inject_Z 50));
     delta := PyFloat (Fin (1 # 50)); npts := 1;
     calib := PyFloat (Fin (inject_Z 1)); data := [PyInt 7] |}.

Definition marked_event (nm : string) : Event :=
  {| resource_id := "smi:local/2";
     comments := [{| text := marker nm; creation_info := None |}];
     attributes := [] |}.

End Cases.

(* ===================================================================== *)
(** ** Equality of numbers and names *)
(* ===================================================================== *)

Lemma float_eq_sym (a b : pyfloat) : float_eq a b = float_eq b a.
Proof.
  destruct a as [| s | x], b as [| t | y]; simpl; try reflexivity.
  - destruct s, t; reflexivity.
  - apply Qeq_bool_comm.
Qed.

Lemma float_eq_trans (a b c : pyfloat) :
  float_eq a b = true -> float_eq b c = true -> float_eq a c = true.
Proof.
  destruct a as [| s | x], b as [| t | y], c as [| u | z]; simpl;
    try discriminate; try (intros; assumption).
  - intros H1 H2. apply eqb_prop in H1. apply eqb_prop in H2.
    subst. apply eqb_reflx.
  - apply Qeq_bool_trans.
Qed.

Lemma float_eq_refl (a : pyfloat) : a <> NaN -> float_eq a a = true.
Proof.
  destruct a as [| s | x]; simpl; intros H.
  - congruence.
  - apply eqb_reflx.
  - apply Qeq_bool_refl.
Qed.

Lemma num_eq_sym (a b : pynum) : num_eq a b = num_eq b a.
Proof. apply float_eq_sym. Qed.

Lemma num_eq_trans (a b c : pynum) :
  num_eq a b = true -> num_eq b c = true -> num_eq a c = true.
Proof. apply float_eq_trans. Qed.

Lemma num_eq_refl (a : pynum) : is_nan a = false -> num_eq a a = true.
Proof.
  intros H. apply float_eq_refl.
  destruct a as [z | [| s | x]]; simpl in *; congruence.
Qed.

Lemma num_eq_nan (a : pynum) : is_nan a = true -> num_eq a a = false.
Proof.
  destruct a as [z | [| s | x]]; simpl; intros H;
    try discriminate; reflexivity.
Qed.

Lemma param_eq_sym (a b : param) : param_eq a b = param_eq b a.
Proof. destruct a, b; simpl; auto using num_eq_sym. Qed.

Lemma param_eq_trans (a b c : param) :
  param_eq a b = true -> param_eq b c = true -> param_eq a c = true.
Proof.
  destruct a, b, c; simpl; try discriminate; auto.
  apply num_eq_trans.
Qed.

Lemma param_eq_refl (a : param) : param_is_nan a = false -> param_eq a a = true.
Proof. destruct a; simpl; auto using num_eq_refl. Qed.

Lemma name_eq_refl (a : option string) : name_eq a a = true.
Proof. destruct a; simpl; auto using String.eqb_refl. Qed.

Lemma name_eq_sym (a b : option string) : name_eq a b = name_eq b a.
Proof. destruct a, b; simpl; auto using String.eqb_sym. Qed.

(* ===================================================================== *)
(** ** same_processing *)
(* ===================================================================== *)

(** The loop of [same_processing] compares exactly the five processing
    parameters. *)
Lemma same_processing_spec (a b : Template) :
  same_processing a b =
    param_eq (lowcut a) (lowcut b)
    && (param_eq (highcut a) (highcut b)
    && (param_eq (samp_rate a) (samp_rate b)
    && (param_eq (filt_order a) (filt_order b)
    && param_eq (process_length a) (process_length b)))).
Proof.
  unfold same_processing. simpl. rewrite !andb_true_r. reflexivity.
Qed.

Lemma same_processing_sym (a b : Template) :
  same_processing a b = same_processing b a.
Proof.
  rewrite !same_processing_spec.
  rewrite (param_eq_sym (lowcut a)), (param_eq_sym (highcut a)),
    (param_eq_sym (samp_rate a)), (param_eq_sym (filt_order a)),
    (param_eq_sym (process_length a)).
  reflexivity.
Qed.

Lemma same_processing_trans (a b c : Template) :
  same_processing a b = true -> same_processing b c = true ->
  same_processing a c = true.
Proof.
  rewrite !same_processing_spec, !andb_true_iff.
  intros (H1 & H2 & H3 & H4 & H5) (G1 & G2 & G3 & G4 & G5).
  repeat split; eapply param_eq_trans; eassumption.
Qed.

Lemma same_processing_refl (a : Template) :
  processing_nan_free a = true -> same_processing a a = true.
Proof.
  unfold processing_nan_free.
  rewrite same_processing_spec, !andb_true_iff, !negb_true_iff.
  intros ((((H1 & H2) & H3) & H4) & H5).
  repeat split; apply param_eq_refl; assumption.
Qed.

Lemma same_processing_entry (k : key) (a b : Template) :
  In k processing_keys -> same_processing a b = true ->
  param_eq (processing_entry k a) (processing_entry k b) = true.
Proof.
  rewrite same_processing_spec, !andb_true_iff.
  intros Hk (H1 & H2 & H3 & H4 & H5).
  simpl in Hk; decompose [or] Hk; subst; simpl; tauto.
Qed.

(* ===================================================================== *)
(** ** Template.__eq__ *)
(* ===================================================================== *)

Lemma forallb_pointwise {A : Type} (f g : A -> bool) (l : list A) :
  (forall x, f x = g x) -> forallb f l = forallb g l.
Proof.
  intros Hfg. induction l as [| x l IH]; simpl; [reflexivity |].
  rewrite Hfg, IH. reflexivity.
Qed.

Section EqualityFacts.

Variable tes : Event -> Event -> bool.
Variable h : heap.

Lemma template_eq_spec (a b : Template) :
  template_eq tes h a b =
    name_eq (name a) (name b)
    && (st_agrees (st a) (st b)
    && (param_eq (lowcut a) (lowcut b)
    && (param_eq (highcut a) (highcut b)
    && (param_eq (samp_rate a) (samp_rate b)
    && (param_eq (filt_order a) (filt_order b)
    && (param_eq (process_length a) (process_length b)
    && (param_eq (prepick a) (prepick b)
    && event_agrees tes h a b))))))).
Proof.
  unfold template_eq. simpl. rewrite !andb_true_r. reflexivity.
Qed.

(** Equal templates are processed the same. *)
Lemma template_eq_same_processing (a b : Template) :
  template_eq tes h a b = true -> same_processing a b = true.
Proof.
  rewrite template_eq_spec, same_processing_spec, !andb_true_iff.
  tauto.
Qed.

Lemma array_equal_sym (x y : list pynum) : array_equal x y = array_equal y x.
Proof.
  unfold array_equal. rewrite Nat.eqb_sym. f_equal.
  revert y. induction x as [| a x IH]; intros [| b y]; simpl; auto.
  rewrite num_eq_sym, IH. reflexivity.
Qed.

Lemma array_equal_refl (x : list pynum) :
  forallb (fun a => negb (is_nan a)) x = true -> array_equal x x = true.
Proof.
  unfold array_equal. rewrite Nat.eqb_refl. simpl.
  induction x as [| a x IH]; simpl; auto.
  rewrite andb_true_iff, negb_true_iff. intros [Ha Hx].
  rewrite (num_eq_refl _ Ha). auto.
Qed.

Lemma stats_differ_sym (k : trkey) (tr oth : Trace) :
  stats_differ k tr oth = stats_differ k oth tr.
Proof.
  unfold stats_differ. f_equal.
  destruct k; auto using String.eqb_sym, Z.eqb_sym, num_eq_sym.
Qed.

Lemma trace_pair_agrees_sym (tr oth : Trace) :
  trace_pair_agrees (tr, oth) = trace_pair_agrees (oth, tr).
Proof.
  unfold trace_pair_agrees. rewrite array_equal_sym. f_equal.
  apply forallb_pointwise. intros k. rewrite stats_differ_sym. reflexivity.
Qed.

Lemma trace_pair_agrees_refl (tr : Trace) :
  trace_nan_free tr = true -> trace_pair_agrees (tr, tr) = true.
Proof.
  unfold trace_nan_free, trace_pair_agrees.
  rewrite !andb_true_iff, !negb_true_iff.
  intros (((Hd & Hs) & Hdl) & Hc). split.
  - apply array_equal_refl, Hd.
  - simpl. unfold stats_differ.
    rewrite !String.eqb_refl, !Z.eqb_refl, !num_eq_refl by assumption.
    reflexivity.
Qed.

Lemma zip_agrees_sym (x y : list Trace) :
  forallb trace_pair_agrees (combine x y)
  = forallb trace_pair_agrees (combine y x).
Proof.
  revert y.
  induction x as [| a x IH]; intros [| b y]; cbn [combine forallb]; auto.
  rewrite trace_pair_agrees_sym, IH. reflexivity.
Qed.

Lemma st_agrees_sym (v w : waveform) : st_agrees v w = st_agrees w v.
Proof. destruct v, w; simpl; auto using zip_agrees_sym. Qed.

End EqualityFacts.

(* ===================================================================== *)
(** ** Sorting a stream keeps its traces *)
(* ===================================================================== *)

Lemma insert_by_In {A : Type} (leb : A -> A -> bool) (x y : A) (l : list A) :
  In y (insert_by leb x l) -> y = x \/ In y l.
Proof.
  induction l as [| z l IH]; simpl.
  - intros [H | []]; auto.
  - destruct (leb x z); simpl; intros H.
    + destruct H as [H | H]; auto.
    + destruct H as [H | H]; auto. destruct (IH H); auto.
Qed.

Lemma stable_sort_In {A : Type} (leb : A -> A -> bool) (y : A) (l : list A) :
  In y (stable_sort leb l) -> In y l.
Proof.
  induction l as [| x l IH]; simpl; auto.
  intros H. apply insert_by_In in H. destruct H; auto.
Qed.

Lemma stream_sort_In (tr : Trace) (trs : list Trace) :
  In tr (stream_sort trs) -> In tr trs.
Proof.
  unfold stream_sort. generalize (rev sort_keys). intros ks. revert trs.
  induction ks as [| k ks IH]; simpl; auto.
  intros trs H. apply IH in H. eapply stable_sort_In; eassumption.
Qed.

(* ===================================================================== *)
(** ** Stream.sort: one stable sort per key is one sort by all keys *)
(* ===================================================================== *)

Lemma string_compare_refl (s : string) : String.compare s s = Eq.
Proof.
  induction s as [| c s IH]; simpl; auto.
  unfold Ascii.compare. rewrite N.compare_refl. exact IH.
Qed.

Lemma string_compare_lt_trans (s1 s2 s3 : string) :
  String.compare s1 s2 = Lt -> String.compare s2 s3 = Lt ->
  String.compare s1 s3 = Lt.
Proof.
  revert s2 s3.
  induction s1 as [| c1 s1 IH]; intros [| c2 s2] [| c3 s3]; simpl;
    try discriminate; auto.
  unfold Ascii.compare.
  destruct (N.compare (N_of_ascii c1) (N_of_ascii c2)) eqn:H12;
    destruct (N.compare (N_of_ascii c2) (N_of_ascii c3)) eqn:H23;
    try discriminate; intros Ha Hb.
  - apply N.compare_eq_iff in H12, H23.
    rewrite H12, H23, N.compare_refl. eapply IH; eassumption.
  - apply N.compare_eq_iff in H12. rewrite H12, H23. reflexivity.
  - apply N.compare_eq_iff in H23. rewrite <- H23, H12. reflexivity.
  - rewrite N.compare_lt_iff in *.
    assert (H13 : (N_of_ascii c1 < N_of_ascii c3)%N) by lia.
    rewrite <- N.compare_lt_iff in H13. rewrite H13. reflexivity.
Qed.

Lemma string_leb_total_order : total_order String.leb.
Proof.
  split; [apply String.leb_total |].
  intros a b c. unfold String.leb.
  destruct (String.compare a b) eqn:Hab; try discriminate;
    destruct (String.compare b c) eqn:Hbc; try discriminate; intros _ _.
  - apply String.compare_eq_iff in Hab, Hbc. subst.
    rewrite string_compare_refl. reflexivity.
  - apply String.compare_eq_iff in Hab. subst. rewrite Hbc. reflexivity.
  - apply String.compare_eq_iff in Hbc. subst. rewrite Hab. reflexivity.
  - rewrite (@string_compare_lt_trans a b c Hab Hbc). reflexivity.
Qed.

Lemma key_leb_total_order (k : sort_key) : total_order (key_leb k).
Proof.
  destruct string_leb_total_order as [Htot Htrans].
  destruct k; split; simpl; intros; eauto;
    rewrite ?Z.leb_le in *; lia.
Qed.

Section SortFacts.

Variable A : Type.
Variables leb1 leb2 : A -> A -> bool.
Hypothesis order1 : total_order leb1.
Hypothesis order2 : total_order leb2.

Lemma lex_leb_total_order : total_order (lex_leb leb1 leb2).
Proof.
  destruct order1 as [Htot1 Htrans1], order2 as [Htot2 Htrans2].
  unfold lex_leb. split.
  - intros a b.
    destruct (leb1 a b) eqn:Hab, (leb1 b a) eqn:Hba; simpl; auto.
    destruct (Htot1 a b); congruence.
  - intros a b c. rewrite !andb_true_iff, !orb_true_iff, !negb_true_iff.
    intros [Hab Hab2] [Hbc Hbc2]. split; [eauto |].
    destruct (leb1 c a) eqn:Hca; auto. right.
    assert (Hcb : leb1 c b = true) by eauto.
    assert (Hba : leb1 b a = true) by eauto.
    destruct Hab2 as [? | Hab2]; [congruence |].
    destruct Hbc2 as [? | Hbc2]; [congruence |].
    eauto.
Qed.

Local Abbreviation sorted2 := (StronglySorted (fun a b => leb2 a b = true)).

Lemma insert_sorted (x : A) (l : list A) :
  sorted2 l -> sorted2 (insert_by leb2 x l).
Proof.
  destruct order2 as [Htot2 Htrans2].
  induction 1 as [| y l Hl IH Hy]; simpl.
  - repeat constructor.
  - destruct (leb2 x y) eqn:Hxy.
    + constructor; [constructor; assumption |].
      constructor; auto. rewrite Forall_forall in *. eauto.
    + constructor; auto. rewrite Forall_forall in *.
      intros z Hz. apply insert_by_In in Hz. destruct Hz as [-> | Hz]; auto.
      destruct (Htot2 x y); congruence.
Qed.

Lemma stable_sort_sorted (l : list A) : sorted2 (stable_sort leb2 l).
Proof.
  induction l as [| x l IH]; simpl; [constructor | apply insert_sorted, IH].
Qed.

Lemma stable_sort_of_sorted (l : list A) :
  sorted2 l -> stable_sort leb2 l = l.
Proof.
  induction 1 as [| y l Hl IH Hy]; simpl; auto.
  rewrite IH. destruct l as [| z l]; simpl; auto.
  inversion Hy as [| ? ? Hyz _]; subst. rewrite Hyz. reflexivity.
Qed.

(** Below everything in the second order, the first order alone decides
    where an element goes. *)
Lemma insert_lex_low (x : A) (l : list A) :
  (forall t, In t l -> leb2 x t = true) ->
  insert_by (lex_leb leb1 leb2) x l = insert_by leb1 x l.
Proof.
  induction l as [| t l IH]; simpl; intros H; auto.
  unfold lex_leb at 1. rewrite (H t) by auto.
  rewrite orb_true_r, andb_true_r.
  destruct (leb1 x t); auto. f_equal. apply IH. auto.
Qed.

Lemma insert_commute (x y : A) (l : list A) :
  leb2 x y = false ->
  insert_by leb1 y (insert_by (lex_leb leb1 leb2) x l)
  = insert_by (lex_leb leb1 leb2) x (insert_by leb1 y l).
Proof.
  destruct order1 as [Htot1 Htrans1].
  intros Hxy.
  assert (Hlex : lex_leb leb1 leb2 x y = negb (leb1 y x)).
  { unfold lex_leb. rewrite Hxy, orb_false_r.
    destruct (leb1 y x) eqn:Hyx; simpl; [apply andb_false_r |].
    destruct (Htot1 x y) as [H | H]; [rewrite H; reflexivity | congruence]. }
  induction l as [| u l IH]; simpl.
  - rewrite Hlex. destruct (leb1 y x); reflexivity.
  - destruct (leb1 y u) eqn:Hyu, (lex_leb leb1 leb2 x u) eqn:Hxu; simpl;
      rewrite ?Hyu, ?Hxu, ?Hlex.
    + destruct (leb1 y x); reflexivity.
    + assert (Hyx : leb1 y x = true).
      { destruct (leb1 y x) eqn:Hyx; auto. exfalso.
        destruct (Htot1 x y) as [H | H]; [| congruence].
        assert (Hu : leb1 x u = true) by eauto.
        unfold lex_leb in Hxu. rewrite Hu in Hxu. simpl in Hxu.
        apply orb_false_iff in Hxu. destruct Hxu as [Hux _].
        apply negb_false_iff in Hux.
        assert (leb1 y x = true) by eauto. congruence. }
      rewrite Hyx. reflexivity.
    + assert (Hyx : leb1 y x = false).
      { destruct (leb1 y x) eqn:Hyx; auto. exfalso.
        unfold lex_leb in Hxu. apply andb_true_iff in Hxu.
        destruct Hxu as [Hu _].
        assert (leb1 y u = true) by eauto. congruence. }
      rewrite Hyx. reflexivity.
    + rewrite IH. reflexivity.
Qed.

Lemma sort_insert (x : A) (l : list A) :
  sorted2 l ->
  stable_sort leb1 (insert_by leb2 x l)
  = insert_by (lex_leb leb1 leb2) x (stable_sort leb1 l).
Proof.
  destruct order2 as [Htot2 Htrans2].
  induction 1 as [| y l Hl IH Hy].
  - reflexivity.
  - cbn [insert_by]. destruct (leb2 x y) eqn:Hxy.
    + change (stable_sort leb1 (x :: y :: l))
        with (insert_by leb1 x (stable_sort leb1 (y :: l))).
      symmetry. apply insert_lex_low. intros t Ht.
      apply stable_sort_In in Ht. destruct Ht as [<- | Ht]; auto.
      rewrite Forall_forall in Hy. eauto.
    + change (stable_sort leb1 (y :: insert_by leb2 x l))
        with (insert_by leb1 y (stable_sort leb1 (insert_by leb2 x l))).
      rewrite IH. apply insert_commute, Hxy.
Qed.

(** Sorting by the second key and then, stably, by the first is sorting
    by both. *)
Lemma sort_twice (l : list A) :
  stable_sort leb1 (stable_sort leb2 l) = stable_sort (lex_leb leb1 leb2) l.
Proof.
  induction l as [| x l IH]; simpl; auto.
  rewrite sort_insert by apply stable_sort_sorted.
  rewrite IH. reflexivity.
Qed.

End SortFacts.

Lemma lex_key_leb_total_order (ks : list sort_key) :
  total_order (lex_key_leb ks).
Proof.
  induction ks as [| k ks IH]; simpl.
  - split; auto.
  - apply lex_leb_total_order; auto using key_leb_total_order.
Qed.

Lemma sort_by_keys (ks : list sort_key) (trs : list Trace) :
  fold_left (fun acc k => stable_sort (key_leb k) acc) (rev ks) trs
  = stable_sort (lex_key_leb ks) trs.
Proof.
  revert trs. induction ks as [| k ks IH]; intros trs; simpl.
  - induction trs as [| x trs IHt]; simpl; auto. rewrite <- IHt.
    destruct trs; reflexivity.
  - rewrite fold_left_app. simpl. rewrite IH.
    apply sort_twice; auto using key_leb_total_order, lex_key_leb_total_order.
Qed.

(** [Stream.sort()] is the stable sort by network, station, location,
    channel, start time, end time. *)
Lemma stream_sort_lex (trs : list Trace) :
  stream_sort trs = stable_sort (lex_key_leb sort_keys) trs.
Proof. apply sort_by_keys. Qed.

(** Sorting a sorted stream changes nothing: the order in which a stream
    is left by an earlier comparison has no bearing on a later one. *)
Lemma stream_sort_idempotent (trs : list Trace) :
  stream_sort (stream_sort trs) = stream_sort trs.
Proof.
  rewrite !stream_sort_lex. apply stable_sort_of_sorted.
  apply stable_sort_sorted, lex_key_leb_total_order.
Qed.

Lemma st_agrees_sorted_l (a : list Trace) (w : waveform) :
  st_agrees (StStream (stream_sort a)) w = st_agrees (StStream a) w.
Proof. destruct w; simpl; rewrite ?stream_sort_idempotent; reflexivity. Qed.

Lemma st_agrees_sorted_r (w : waveform) (b : list Trace) :
  st_agrees w (StStream (stream_sort b)) = st_agrees w (StStream b).
Proof. destruct w; simpl; rewrite ?stream_sort_idempotent; reflexivity. Qed.

(** [__eq__] sorts the streams of both templates in place.  Its answer,
    and every later answer, is the same whether a stream is held as it was
    given or as an earlier comparison left it. *)
Lemma template_eq_sorted (tes : Event -> Event -> bool) (h : heap)
    (t u : Template) (a : list Trace) :
  template_eq tes h (set_st (StStream (stream_sort a)) t) u
  = template_eq tes h (set_st (StStream a) t) u
  /\ template_eq tes h u (set_st (StStream (stream_sort a)) t)
     = template_eq tes h u (set_st (StStream a) t).
Proof.
  rewrite !template_eq_spec. unfold event_agrees, get_event.
  cbn [set_st name st lowcut highcut samp_rate filt_order process_length
       prepick event].
  rewrite st_agrees_sorted_l, st_agrees_sorted_r. split; reflexivity.
Qed.

(** The comparator of events modelled from the specification answers the
    same in both directions. *)
Lemma list_eqb_sym {A : Type} (eqb : A -> A -> bool) (l1 l2 : list A) :
  (forall x y, eqb x y = eqb y x) -> list_eqb eqb l1 l2 = list_eqb eqb l2 l1.
Proof.
  intros Hsym. revert l2.
  induction l1 as [| x l1 IH]; intros [| y l2]; simpl; auto.
  rewrite Hsym, IH. reflexivity.
Qed.

Lemma event_similarity_spec_sym (e1 e2 : Event) :
  event_similarity_spec e1 e2 = event_similarity_spec e2 e1.
Proof.
  unfold event_similarity_spec. f_equal; apply list_eqb_sym.
  - intros x y. unfold comment_eq. rewrite String.eqb_sym. f_equal.
    destruct (creation_info x), (creation_info y); simpl; auto.
    rewrite (name_eq_sym (agency c)), (name_eq_sym (author c)). reflexivity.
  - intros x y. unfold attribute_eq.
    rewrite String.eqb_sym, param_eq_sym. reflexivity.
Qed.

Section Reflexivity.

Variable tes : Event -> Event -> bool.
Variable h : heap.

Lemma zip_agrees_refl (s : list Trace) :
  (forall tr, In tr s -> trace_nan_free tr = true) ->
  forallb trace_pair_agrees (combine s s) = true.
Proof.
  induction s as [| tr s IH]; cbn [combine forallb]; auto.
  intros H. rewrite trace_pair_agrees_refl by (apply H; left; reflexivity).
  apply IH. intros tr' Hin. apply H. right. exact Hin.
Qed.

Lemma st_agrees_refl (w : waveform) :
  st_nan_free w = true -> st_agrees w w = true.
Proof.
  destruct w as [| trs | tr]; simpl; auto.
  intros H. apply zip_agrees_refl. intros tr Hin.
  rewrite forallb_forall in H. apply H, stream_sort_In, Hin.
Qed.

Lemma event_agrees_refl (a : Template) :
  event_self_similar tes h a = true -> event_agrees tes h a a = true.
Proof.
  unfold event_self_similar, event_agrees.
  destruct (get_event h a); auto.
Qed.

Lemma template_eq_refl (a : Template) :
  well_formed tes h a = true -> template_eq tes h a a = true.
Proof.
  unfold well_formed, nan_free, processing_nan_free.
  rewrite template_eq_spec, !andb_true_iff, !negb_true_iff.
  intros (((((((H1 & H2) & H3) & H4) & H5) & H6) & H7) & H8).
  repeat split; auto using name_eq_refl, param_eq_refl, st_agrees_refl,
    event_agrees_refl.
Qed.

Lemma event_agrees_sym (a b : Template) :
  events_commute tes h a b -> event_agrees tes h a b = event_agrees tes h b a.
Proof.
  unfold events_commute, event_agrees.
  destruct (get_event h a), (get_event h b); auto.
Qed.

Lemma template_eq_sym (a b : Template) :
  events_commute tes h a b -> template_eq tes h a b = template_eq tes h b a.
Proof.
  intros H. rewrite !template_eq_spec.
  rewrite (name_eq_sym (name a)), (st_agrees_sym (st a)),
    (param_eq_sym (lowcut a)), (param_eq_sym (highcut a)),
    (param_eq_sym (samp_rate a)), (param_eq_sym (filt_order a)),
    (param_eq_sym (process_length a)), (param_eq_sym (prepick a)),
    (event_agrees_sym a b H).
  reflexivity.
Qed.

End Reflexivity.

(** With the comparator of events modelled from the specification,
    equality is symmetric without further ado. *)
Lemma template_eq_sym_spec (h : heap) (a b : Template) :
  template_eq event_similarity_spec h a b
  = template_eq event_similarity_spec h b a.
Proof.
  apply template_eq_sym. unfold events_commute.
  destruct (get_event h a), (get_event h b); auto.
  apply event_similarity_spec_sym.
Qed.

(* ===================================================================== *)
(** ** Template.copy *)
(* ===================================================================== *)

(** A copy differs from the original at most in the reference to its
    event. *)
Lemma copy_fields (h : heap) (t : Template) :
  exists e, fst (copy h t) = set_event e t.
Proof.
  unfold copy. destruct t as [n w lc hc sr fo pl pp [l |]]; simpl.
  - destruct (deref h l); simpl; eexists; reflexivity.
  - eexists; reflexivity.
Qed.

(** The copy refers to an event with the same content as the original,
    and the original still sees its own event. *)
Lemma copy_get_event (h : heap) (t : Template) :
  get_event (snd (copy h t)) t = get_event h t
  /\ get_event (snd (copy h t)) (fst (copy h t)) = get_event h t.
Proof.
  unfold copy, get_event.
  destruct t as [n w lc hc sr fo pl pp [l |]]; simpl; auto.
  destruct (deref h l) as [e |] eqn:He; simpl.
  - unfold deref in *. split.
    + rewrite nth_error_app1; auto.
      apply nth_error_Some. congruence.
    + rewrite nth_error_app2 by lia. rewrite Nat.sub_diag. reflexivity.
  - rewrite He. auto.
Qed.

Section CopyEquality.

Variable tes : Event -> Event -> bool.

Lemma template_eq_copy (h : heap) (t : Template) :
  well_formed tes h t = true ->
  template_eq tes (snd (copy h t)) t (fst (copy h t)) = true
  /\ template_eq tes (snd (copy h t)) (fst (copy h t)) t = true.
Proof.
  intros Hwf.
  pose proof (template_eq_refl tes h t Hwf) as Hrefl.
  destruct (copy_get_event h t) as [Ht Hc].
  destruct (copy_fields h t) as [e He].
  rewrite template_eq_spec in Hrefl.
  assert (Hev : event_agrees tes h t t = true).
  { rewrite !andb_true_iff in Hrefl. tauto. }
  unfold event_agrees in Hev.
  rewrite !template_eq_spec. unfold event_agrees. rewrite Ht, Hc.
  rewrite He. simpl. split; exact Hrefl.
Qed.

(** C7.  Equality and [same_processing] are total functions into the
    truth values, so neither raises.  A well-formed template is equal to
    its deep copy, in both directions, equal to itself and processed the
    same as itself; [same_processing] is symmetric, and so is equality
    as soon as the comparator of events answers the same in both
    directions on the two events. *)
Theorem equality_reflexive_symmetric (h : heap) (a b : Template) :
  (well_formed tes h a = true ->
     template_eq tes (snd (copy h a)) a (fst (copy h a)) = true
     /\ template_eq tes (snd (copy h a)) (fst (copy h a)) a = true
     /\ template_eq tes h a a = true
     /\ same_processing a a = true)
  /\ (events_commute tes h a b ->
        template_eq tes h a b = template_eq tes h b a)
  /\ same_processing a b = same_processing b a.
Proof.
  split; [| split].
  - intros Hwf. destruct (template_eq_copy h a Hwf) as [H1 H2].
    pose proof (template_eq_refl tes h a Hwf) as H3.
    repeat split; auto.
    eapply template_eq_same_processing; eassumption.
  - apply template_eq_sym.
  - apply same_processing_sym.
Qed.

End CopyEquality.

(** C3.  On a copy of a template without [nan] among its processing
    parameters, assigning [name], [st], [prepick] and [event] at will
    leaves [same_processing] true, in both directions; assigning to one
    of [lowcut], [highcut], [samp_rate], [filt_order], [process_length] a
    value that [==] tells apart from the old one makes it false. *)
Theorem same_processing_ignores_and_detects (h : heap) (t : Template) :
  (processing_nan_free t = true ->
     forall (n : option string) (w : waveform) (p : param) (e : option loc),
       let c := set_event e (set_prepick p (set_st w (set_name n
                  (fst (copy h t))))) in
       same_processing t c = true /\ same_processing c t = true)
  /\ (forall (k : key) (v : param),
        In k processing_keys ->
        param_eq (processing_entry k t) v = false ->
        let c := set_processing k v (fst (copy h t)) in
        same_processing t c = false /\ same_processing c t = false).
Proof.
  destruct (copy_fields h t) as [e0 He0]. rewrite He0. split.
  - intros Hnan n w p e c.
    pose proof (same_processing_refl t Hnan) as Hrefl.
    rewrite same_processing_spec in Hrefl.
    subst c. rewrite !same_processing_spec. simpl. auto.
  - intros k v Hk Hne c.
    assert (H : same_processing t c = false).
    { subst c. rewrite same_processing_spec.
      simpl in Hk. decompose [or] Hk; subst; simpl in *;
        try contradiction; rewrite Hne;
        rewrite ?andb_false_r; reflexivity. }
    split; [exact H | rewrite same_processing_sym; exact H].
Qed.

(* ===================================================================== *)
(** ** The store *)
(* ===================================================================== *)

Lemma length_store (h : heap) (l : loc) (e : Event) :
  length (store h l e) = length h.
Proof.
  revert l. induction h as [| x h IH]; intros [| l]; simpl; auto.
Qed.

Lemma deref_store_same (h : heap) (l : loc) (e e0 : Event) :
  deref h l = Some e0 -> deref (store h l e) l = Some e.
Proof.
  unfold deref. revert l.
  induction h as [| x h IH]; intros [| l]; simpl; try discriminate; auto.
Qed.

Lemma deref_store_other (h : heap) (l l' : loc) (e : Event) :
  l' <> l -> deref (store h l e) l' = deref h l'.
Proof.
  unfold deref. revert l l'.
  induction h as [| x h IH]; intros [| l] [| l'] Hne; simpl; auto;
    congruence.
Qed.

(* ===================================================================== *)
(** ** Template.__init__ and the event it is given *)
(* ===================================================================== *)

Lemma comment_count_append (txt : string) (e : Event) (c : Comment) :
  comment_count txt (append_comment e c)
  = (comment_count txt e + if String.eqb txt (text c) then 1 else 0)%nat.
Proof.
  unfold comment_count, append_comment. simpl.
  rewrite map_app, filter_app, length_app. simpl.
  destruct (String.eqb txt (text c)); reflexivity.
Qed.

Lemma has_comment_count (txt : string) (e : Event) :
  has_comment txt e = negb (comment_count txt e =? 0)%nat.
Proof.
  unfold has_comment, comment_count.
  induction (map text (comments e)) as [| s l IH]; simpl; auto.
  destruct (String.eqb txt s); simpl; auto.
Qed.

Section InitFacts.

Variable getuser : string.

(** The name is checked first: a name that fails the expression stops
    the call with [ValueError] and leaves no object; an accepted or
    unset name never leads to [ValueError]. *)
Lemma init_name_check (h : heap) (name : option string) (st : waveform)
    (lc hc sr fo pl pp : param) (event : option loc) :
  (name_accepted name = false ->
     init getuser h name st lc hc sr fo pl pp event = Raise ValueError)
  /\ (name_accepted name = true ->
        init getuser h name st lc hc sr fo pl pp event <> Raise ValueError).
Proof.
  unfold init, attach_event, check_sampling_rates.
  split; intros H; rewrite H; simpl; auto.
  repeat match goal with
         | |- context [match ?x with _ => _ end] => destruct x; simpl
         end; discriminate.
Qed.

(** An event that carries the marker already is left as it is. *)
Lemma init_marked (h : heap) (name : option string) (st : waveform)
    (lc hc sr fo pl pp : param) (l : loc) (e : Event) :
  name_accepted name = true ->
  check_sampling_rates st sr = Ok tt ->
  deref h l = Some e ->
  has_comment (marker (temp_name_of name)) e = true ->
  exists t, init getuser h name st lc hc sr fo pl pp (Some l) = Ok (t, h)
            /\ event t = Some l.
Proof.
  intros Hn Hs Hd Hc. unfold init. rewrite Hn. simpl. rewrite Hs. simpl.
  rewrite Hd, Hc. simpl. eexists. split; reflexivity.
Qed.

(** An event without the marker gets it appended, in the store. *)
Lemma init_unmarked (h : heap) (name : option string) (st : waveform)
    (lc hc sr fo pl pp : param) (l : loc) (e : Event) :
  name_accepted name = true ->
  check_sampling_rates st sr = Ok tt ->
  deref h l = Some e ->
  has_comment (marker (temp_name_of name)) e = false ->
  exists t,
    init getuser h name st lc hc sr fo pl pp (Some l)
    = Ok (t, store h l (append_comment e
                          (marker_comment getuser (temp_name_of name))))
    /\ event t = Some l.
Proof.
  intros Hn Hs Hd Hc. unfold init. rewrite Hn. simpl. rewrite Hs. simpl.
  rewrite Hd, Hc. simpl. eexists. split; reflexivity.
Qed.

(** C10.  With an accepted name, matching sampling rates and an event
    that lacks the marker, the call succeeds; the new template refers
    to the very object it was given; in the store that object now ends
    with the marker comment, written by [eqcorrscan] and the current
    user, and keeps its identifier, its earlier comments and its other
    content; all other objects of the store are as before.  Without a
    name the marker reads [eqcorrscan_template_unnamed]. *)
Theorem init_appends_marker_in_place (h : heap) (name : option string)
    (st : waveform) (lc hc sr fo pl pp : param) (l : loc) (e : Event) :
  name_accepted name = true ->
  check_sampling_rates st sr = Ok tt ->
  deref h l = Some e ->
  has_comment (marker (temp_name_of name)) e = false ->
  exists (t : Template) (h' : heap) (e' : Event) (c : Comment),
    init getuser h name st lc hc sr fo pl pp (Some l) = Ok (t, h')
    /\ event t = Some l
    /\ deref h' l = Some e'
    /\ comments e' = comments e ++ [c]
    /\ text c = marker (temp_name_of name)
    /\ creation_info c = Some {| agency := Some "eqcorrscan"%string;
                                 author := Some getuser |}
    /\ resource_id e' = resource_id e
    /\ attributes e' = attributes e
    /\ (forall l', l' <> l -> deref h' l' = deref h l')
    /\ length h' = length h
    /\ (name = None -> text c = "eqcorrscan_template_unnamed"%string).
Proof.
  intros Hn Hs Hd Hc.
  destruct (init_unmarked h name st lc hc sr fo pl pp l Hn Hs Hd Hc)
    as (t & Hinit & Hev).
  exists t. eexists. eexists. eexists.
  split; [exact Hinit |]. split; [exact Hev |].
  split; [eapply deref_store_same; eassumption |].
  repeat split; simpl; auto using deref_store_other, length_store.
  intros ->. reflexivity.
Qed.

(** After one construction the event carries the marker. *)
Lemma init_leaves_marker (h : heap) (name : option string) (st : waveform)
    (lc hc sr fo pl pp : param) (l : loc) (e : Event) :
  name_accepted name = true ->
  check_sampling_rates st sr = Ok tt ->
  deref h l = Some e ->
  (comment_count (marker (temp_name_of name)) e <= 1)%nat ->
  exists t h' e',
    init getuser h name st lc hc sr fo pl pp (Some l) = Ok (t, h')
    /\ deref h' l = Some e'
    /\ comment_count (marker (temp_name_of name)) e' = 1%nat.
Proof.
  intros Hn Hs Hd Hc.
  destruct (has_comment (marker (temp_name_of name)) e) eqn:Hhas.
  - destruct (init_marked h name st lc hc sr fo pl pp l Hn Hs Hd Hhas)
      as (t & Hinit & _).
    exists t, h, e. repeat split; auto.
    rewrite has_comment_count, negb_true_iff, Nat.eqb_neq in Hhas. lia.
  - destruct (init_unmarked h name st lc hc sr fo pl pp l Hn Hs Hd Hhas)
      as (t & Hinit & _).
    exists t. eexists. eexists. split; [exact Hinit |].
    split; [eapply deref_store_same; eassumption |].
    rewrite comment_count_append. simpl. rewrite String.eqb_refl.
    rewrite has_comment_count, negb_false_iff, Nat.eqb_eq in Hhas. lia.
Qed.

Lemma init_many_marker (name : option string) (l : loc)
    (calls : list init_args) :
  name_accepted name = true ->
  (forall c, In c calls ->
     check_sampling_rates (arg_st c) (arg_samp_rate c) = Ok tt) ->
  forall (h : heap) (e : Event),
    deref h l = Some e ->
    comment_count (marker (temp_name_of name)) e = 1%nat ->
    init_many getuser h name (Some l) calls = Ok h.
Proof.
  intros Hn. induction calls as [| c calls IH]; intros Hs h e Hd Hc.
  - reflexivity.
  - simpl.
    assert (Hhas : has_comment (marker (temp_name_of name)) e = true).
    { rewrite has_comment_count, Hc. reflexivity. }
    destruct (init_marked h name (arg_st c) (arg_lowcut c) (arg_highcut c)
                (arg_samp_rate c) (arg_filt_order c) (arg_process_length c)
                (arg_prepick c) l Hn (Hs c (or_introl eq_refl)) Hd Hhas)
      as (t & Hinit & _).
    rewrite Hinit. simpl. eapply IH; eauto.
    intros c' Hin. apply Hs. right. exact Hin.
Qed.

(** C4.  Under an accepted name and with matching sampling rates,
    every series of at least one construction with the same event
    succeeds and leaves exactly one marker comment of that name on the
    event, provided the event did not start with several; and from then
    on a further construction under that name returns with the store
    exactly as it found it. *)
Theorem marker_attached_once (h : heap) (name : option string) (l : loc)
    (e : Event) (calls : list init_args) :
  name_accepted name = true ->
  (forall c, In c calls ->
     check_sampling_rates (arg_st c) (arg_samp_rate c) = Ok tt) ->
  deref h l = Some e ->
  (comment_count (marker (temp_name_of name)) e <= 1)%nat ->
  calls <> [] ->
  exists (h' : heap) (e' : Event),
    init_many getuser h name (Some l) calls = Ok h'
    /\ deref h' l = Some e'
    /\ comment_count (marker (temp_name_of name)) e' = 1%nat
    /\ (forall st lc hc sr fo pl pp,
          check_sampling_rates st sr = Ok tt ->
          exists t,
            init getuser h' name st lc hc sr fo pl pp (Some l)
            = Ok (t, h')).
Proof.
  intros Hn Hs Hd Hc Hne.
  destruct calls as [| c calls]; [congruence |].
  destruct (init_leaves_marker h name (arg_st c) (arg_lowcut c)
              (arg_highcut c) (arg_samp_rate c) (arg_filt_order c)
              (arg_process_length c) (arg_prepick c) l
              Hn (Hs c (or_introl eq_refl)) Hd Hc)
    as (t & h' & e' & Hinit & Hd' & Hc').
  exists h', e'. simpl. rewrite Hinit. simpl.
  split.
  { eapply init_many_marker; eauto.
    intros c' Hin. apply Hs. right. exact Hin. }
  split; [exact Hd' |]. split; [exact Hc' |].
  intros st' lc hc sr fo pl pp Hs'.
  assert (Hhas : has_comment (marker (temp_name_of name)) e' = true).
  { rewrite has_comment_count, Hc'. reflexivity. }
  destruct (init_marked h' name st' lc hc sr fo pl pp l Hn Hs' Hd' Hhas)
    as (t' & Hinit' & _).
  exists t'. exact Hinit'.
Qed.

End InitFacts.

(* ===================================================================== *)
(** ** Equality at a type mismatch and at streams of different length *)
(* ===================================================================== *)

(** When neither waveform is a [Stream], the branch for [st] compares
    nothing. *)
Lemma st_agrees_without_stream (v w : waveform) :
  (forall trs, v <> StStream trs) -> (forall trs, w <> StStream trs) ->
  st_agrees v w = true.
Proof.
  intros Hv Hw. destruct v as [| a | a], w as [| b | b]; simpl; auto.
  - destruct (Hw b eq_refl).
  - destruct (Hv a eq_refl).
  - destruct (Hv a eq_refl).
  - destruct (Hv a eq_refl).
  - destruct (Hw b eq_refl).
Qed.

(** C2.  Two templates that agree on all other fields, one holding a
    single [Trace], the other [None]: [__eq__] returns, and it returns
    [True] where the specification asks for [False].  Against an empty
    [Stream] it does return [False]. *)
Theorem trace_equals_absent_waveform
    (tes : Event -> Event -> bool) (h : heap) (tr : Trace) :
  template_eq tes h (Sample.template "a" (StTrace tr) 8)
                    (Sample.template "a" StNone 8) = true
  /\ template_eq tes h (Sample.template "a" (StTrace tr) 8)
                       (Sample.template "a" (StStream []) 8) = false.
Proof. split; reflexivity. Qed.

(** [zip] stops at the end of the shorter stream: traces beyond it are
    never looked at. *)
Lemma zip_agrees_prefix (s rest : list Trace) :
  (forall tr, In tr s -> trace_nan_free tr = true) ->
  forallb trace_pair_agrees (combine (s ++ rest) s) = true.
Proof.
  induction s as [| tr s IH]; intros Hs.
  - destruct rest; reflexivity.
  - cbn [combine forallb app].
    rewrite trace_pair_agrees_refl by (apply Hs; left; reflexivity).
    apply IH. intros tr' Hin. apply Hs. right. exact Hin.
Qed.

(** C6.  One stream is the other plus the channel [HHZ]; the sorted
    streams are [HHN, HHZ] and [HHN], the only pair that [zip] yields
    agrees, and [__eq__] returns [True] in both directions. *)
Theorem extra_channel_goes_unnoticed
    (tes : Event -> Event -> bool) (h : heap) :
  let a := Sample.template "a" (StStream [Sample.tr_z; Sample.tr_n]) 8 in
  let b := Sample.template "a" (StStream [Sample.tr_n]) 8 in
  template_eq tes h a b = true /\ template_eq tes h b a = true.
Proof. split; reflexivity. Qed.

(* ===================================================================== *)
(** ** Template.construct *)
(* ===================================================================== *)

(** [construct] stores whatever name it is given. *)
Lemma construct_name (self : Template) (method : string)
    (nm : option string) (lc hc sr fo pp : param)
    (tg : result (list (list Trace) * list (option loc) * list param))
    (t : Template) :
  construct self method nm lc hc sr fo pp tg = Ok t -> name t = nm.
Proof.
  unfold construct. destruct (existsb _ _); [discriminate |].
  destruct tg as [[[streams events] pls] | e]; simpl; [| discriminate].
  destruct streams as [| s ?]; simpl; [discriminate |].
  destruct events as [| ev ?]; simpl; [discriminate |].
  destruct pls as [| pl ?]; simpl; [discriminate |].
  intros H. inversion H. reflexivity.
Qed.

(** C5.  The name [bad name] fails the expression; [__init__] refuses it
    with [ValueError], whatever else it is given; [construct] with method
    [from_sac] returns a template that carries it. *)
Theorem construct_skips_name_check
    (self : Template) (lc hc sr fo pp : param) :
  name_regex_match "bad name" = false
  /\ (forall getuser h st pl ev,
        init getuser h (Some "bad name"%string) st lc hc sr fo pl pp ev
        = Raise ValueError)
  /\ exists t,
       construct self "from_sac" (Some "bad name"%string) lc hc sr fo pp
         (Ok ([[Sample.tr_z]], [None], [Some (PyInt 300)])) = Ok t
       /\ name t = Some "bad name"%string.
Proof.
  split; [reflexivity |]. split.
  - intros getuser h st pl ev. apply init_name_check. reflexivity.
  - eexists. split; reflexivity.
Qed.

(* ===================================================================== *)
(** ** Lists *)
(* ===================================================================== *)

Lemma existsb_false_In {A : Type} (f : A -> bool) (l : list A) :
  existsb f l = false <-> (forall x, In x l -> f x = false).
Proof.
  induction l as [| a l IH]; simpl.
  - split; [intros _ x [] | reflexivity].
  - rewrite orb_false_iff, IH. split.
    + intros [Ha Hl] x [<- | Hx]; auto.
    + intros H. split; auto.
Qed.

Lemma filter_nil_In {A : Type} (f : A -> bool) (l : list A) :
  (forall x, In x l -> f x = false) -> filter f l = [].
Proof.
  induction l as [| a l IH]; simpl; intros H; auto.
  rewrite (H a) by auto. apply IH. auto.
Qed.

Lemma filter_twice {A : Type} (f : A -> bool) (l : list A) :
  filter f (filter f l) = filter f l.
Proof.
  induction l as [| a l IH]; simpl; auto.
  destruct (f a) eqn:Ha; simpl; rewrite ?Ha, IH; reflexivity.
Qed.

Lemma filter_concat {A : Type} (f : A -> bool) (ls : list (list A)) :
  filter f (concat ls) = concat (map (filter f) ls).
Proof.
  induction ls as [| l ls IH]; simpl; auto.
  rewrite filter_app, IH. reflexivity.
Qed.

Lemma ordered_pairs_snoc {A : Type} (R : A -> A -> Prop) (l : list A) (x : A) :
  ForallOrdPairs R l -> Forall (fun y => R y x) l ->
  ForallOrdPairs R (l ++ [x]).
Proof.
  induction 1 as [| a l Ha Hl IH]; simpl; intros HF.
  - constructor; constructor.
  - inversion HF; subst. constructor.
    + apply Forall_app. split; auto.
    + auto.
Qed.

Lemma ordered_pairs_app {A : Type} (R : A -> A -> Prop) (l1 l2 : list A) :
  ForallOrdPairs R (l1 ++ l2) ->
  forall x y, In x l1 -> In y l2 -> R x y.
Proof.
  induction l1 as [| a l1 IH]; simpl; intros H x y Hx Hy; [destruct Hx |].
  inversion H as [| ? ? Ha Hl]; subst.
  destruct Hx as [<- | Hx].
  - rewrite Forall_forall in Ha. apply Ha, in_or_app. right. exact Hy.
  - eapply IH; eauto.
Qed.

Lemma ordered_pairs_NoDup {A : Type} (R : A -> A -> Prop) (l : list A) :
  (forall x, In x l -> ~ R x x) -> ForallOrdPairs R l -> NoDup l.
Proof.
  intros Hirr H. induction H as [| a l Ha Hl IH]; constructor.
  - intros Hin. rewrite Forall_forall in Ha.
    apply (Hirr a (or_introl eq_refl)), Ha, Hin.
  - apply IH. intros x Hx. apply Hirr. right. exact Hx.
Qed.

Lemma map_id_injective {A : Type} (f : A -> nat) (l : list A) (x y : A) :
  NoDup (map f l) -> In x l -> In y l -> f x = f y -> x = y.
Proof.
  induction l as [| a l IH]; simpl; intros Hnd Hx Hy Hf; [destruct Hx |].
  inversion Hnd as [| ? ? Hnot Hnd']; subst.
  destruct Hx as [<- | Hx], Hy as [<- | Hy]; auto.
  - exfalso. apply Hnot. rewrite Hf. apply in_map, Hy.
  - exfalso. apply Hnot. rewrite <- Hf. apply in_map, Hx.
Qed.

Lemma subseq_refl {A : Type} (l : list A) : subseq l l.
Proof. induction l; constructor; auto. Qed.

Lemma subseq_filter {A : Type} (f : A -> bool) (l : list A) :
  subseq (filter f l) l.
Proof.
  induction l as [| a l IH]; simpl; [constructor |].
  destruct (f a); constructor; exact IH.
Qed.

Lemma subseq_app_r {A : Type} (l1 l2 pre : list A) :
  subseq l1 l2 -> subseq l1 (pre ++ l2).
Proof. intros H. induction pre; simpl; [exact H | constructor; exact IHpre]. Qed.

Lemma subseq_snoc {A : Type} (l1 l2 : list A) (x : A) :
  subseq l1 l2 -> subseq (l1 ++ [x]) (l2 ++ [x]).
Proof.
  induction 1; simpl; repeat constructor; auto.
Qed.

Lemma subseq_snoc_skip {A : Type} (l1 l2 : list A) (x : A) :
  subseq l1 l2 -> subseq l1 (l2 ++ [x]).
Proof.
  induction 1; simpl; repeat constructor; auto.
Qed.

Lemma subseq_In {A : Type} (l1 l2 : list A) (x : A) :
  subseq l1 l2 -> In x l1 -> In x l2.
Proof.
  induction 1; simpl; intros Hin; auto.
  destruct Hin; auto.
Qed.

(* ===================================================================== *)
(** ** The closing loop of group_templates *)
(* ===================================================================== *)

Lemma drop_loop_nonempty {A : Type} (fuel i : nat) (gs : list (list A)) :
  Forall (fun g => g <> []) gs -> drop_loop fuel i gs = gs.
Proof.
  intros H. revert i. induction fuel as [| fuel IH]; intros i; simpl; auto.
  destruct (nth_error gs i) as [g |] eqn:Hg; auto.
  apply nth_error_In in Hg. rewrite Forall_forall in H.
  specialize (H g Hg). destruct g; [congruence | simpl; apply IH].
Qed.

Lemma drop_empty_groups_nonempty {A : Type} (gs : list (list A)) :
  Forall (fun g => g <> []) gs -> drop_empty_groups gs = gs.
Proof. apply drop_loop_nonempty. Qed.

(* ===================================================================== *)
(** ** group_templates: masters and their groups *)
(* ===================================================================== *)

Section GroupingFacts.

Variable tes : Event -> Event -> bool.
Variable h : heap.

Local Abbreviation eq_obj := (obj_eq tes h).
Local Abbreviation sp := obj_same_processing.
Local Abbreviation contains := (list_contains tes h).
Local Abbreviation group_of := (new_group tes h).
Local Abbreviation earlier_than := (not_in_group_of tes h).

Lemma sp_sym (a b : object) : sp a b = sp b a.
Proof. apply same_processing_sym. Qed.

Lemma sp_trans (a b c : object) :
  sp a b = true -> sp b c = true -> sp a c = true.
Proof. apply same_processing_trans. Qed.

Lemma eq_obj_sp (a b : object) : eq_obj a b = true -> sp a b = true.
Proof. apply template_eq_same_processing. Qed.

Lemma sp_false_trans (a b c : object) :
  sp a b = false -> sp b c = true -> sp a c = false.
Proof.
  intros Hab Hbc. destruct (sp a c) eqn:Hac; auto.
  rewrite <- Hab. symmetry. eapply sp_trans; [exact Hac |].
  rewrite sp_sym. exact Hbc.
Qed.

(** An object is found in every list it is a member of. *)
Lemma contains_member (x : object) (g : list object) :
  In x g -> contains x g = true.
Proof.
  intros Hin. apply existsb_exists. exists x. split; auto.
  rewrite Nat.eqb_refl. reflexivity.
Qed.

Lemma contains_equal (x y : object) (g : list object) :
  In y g -> eq_obj y x = true -> contains x g = true.
Proof.
  intros Hin Heq. apply existsb_exists. exists y. split; auto.
  rewrite Heq. apply orb_true_r.
Qed.

Lemma group_of_In (ts : list object) (m x : object) :
  In x (group_of ts m) <-> x = m \/ (In x ts /\ is_slave tes h m x = true).
Proof.
  unfold new_group. simpl. rewrite filter_In. intuition auto.
Qed.

Lemma group_of_sp (ts : list object) (m x : object) :
  In x (group_of ts m) -> x = m \/ sp m x = true.
Proof.
  rewrite group_of_In. unfold is_slave. rewrite andb_true_iff. tauto.
Qed.

Lemma groups_nonempty (ts ms : list object) :
  Forall (fun g => g <> []) (map (group_of ts) ms).
Proof.
  apply Forall_forall. intros g Hg. apply in_map_iff in Hg.
  destruct Hg as (m & <- & _). discriminate.
Qed.

(** The loop over the masters, read as a choice of masters. *)
Lemma fold_visit_pick (ts l ms : list object) :
  fold_left (visit tes h ts) l (map (group_of ts) ms)
  = map (group_of ts) (fold_left (pick tes h ts) l ms).
Proof.
  revert ms. induction l as [| x l IH]; intros ms; simpl; auto.
  unfold visit at 2, pick at 2.
  destruct (existsb (contains x) (map (group_of ts) ms)).
  - apply IH.
  - rewrite <- IH, map_app. reflexivity.
Qed.

Lemma group_templates_masters (ts : list object) :
  group_templates tes h ts = map (group_of ts) (masters_of tes h ts).
Proof.
  unfold group_templates, build_groups, masters_of.
  change (@nil (list object)) with (map (group_of ts) []).
  rewrite fold_visit_pick. apply drop_empty_groups_nonempty, groups_nonempty.
Qed.

(** Masters are only appended. *)
Lemma pick_extends (ts l ms : list object) :
  exists new, fold_left (pick tes h ts) l ms = ms ++ new /\ incl new l.
Proof.
  revert ms. induction l as [| x l IH]; intros ms; simpl.
  - exists []. rewrite app_nil_r. split; [reflexivity | apply incl_nil_l].
  - unfold pick at 2.
    destruct (existsb (contains x) (map (group_of ts) ms)).
    + destruct (IH ms) as (new & -> & Hincl). exists new. split; auto.
      apply incl_tl, Hincl.
    + destruct (IH (ms ++ [x])) as (new & -> & Hincl).
      exists (x :: new). rewrite <- app_assoc. split; auto.
      apply incl_cons; [left; reflexivity | apply incl_tl, Hincl].
Qed.

Lemma masters_incl (ts : list object) : incl (masters_of tes h ts) ts.
Proof.
  unfold masters_of. destruct (pick_extends ts ts []) as (new & -> & H).
  exact H.
Qed.

(** Every master was missing from the groups of the masters before it. *)
Lemma pick_ordered (ts l ms : list object) :
  ForallOrdPairs (earlier_than ts) ms ->
  ForallOrdPairs (earlier_than ts) (fold_left (pick tes h ts) l ms).
Proof.
  revert ms. induction l as [| x l IH]; intros ms Hms; simpl; auto.
  apply IH. unfold pick.
  destruct (existsb (contains x) (map (group_of ts) ms)) eqn:Hx; auto.
  apply ordered_pairs_snoc; auto.
  apply Forall_forall. intros b Hb. unfold not_in_group_of.
  rewrite existsb_false_In in Hx. apply Hx, in_map, Hb.
Qed.

Lemma masters_ordered (ts : list object) :
  ForallOrdPairs (earlier_than ts) (masters_of tes h ts).
Proof. apply pick_ordered. constructor. Qed.

(** A master that is visited later is not processed like an earlier
    one: it would have been taken into that group, or have been equal
    to its master. *)
Lemma earlier_than_sp (ts : list object) (m m' : object) :
  In m' ts -> earlier_than ts m m' -> sp m m' = false.
Proof.
  unfold not_in_group_of. intros Hin Hnot.
  destruct (sp m m') eqn:Hsp; auto.
  rewrite <- Hnot. symmetry.
  destruct (eq_obj m m') eqn:Heq.
  - apply contains_equal with (y := m); auto.
    apply group_of_In. left. reflexivity.
  - apply contains_member, group_of_In. right. split; auto.
    unfold is_slave. rewrite Hsp, Heq. reflexivity.
Qed.

Lemma earlier_than_irrefl (ts : list object) (m : object) :
  ~ earlier_than ts m m.
Proof.
  unfold not_in_group_of. rewrite contains_member; [discriminate |].
  apply group_of_In. left. reflexivity.
Qed.

Lemma masters_NoDup (ts : list object) : NoDup (masters_of tes h ts).
Proof.
  eapply ordered_pairs_NoDup; [| apply masters_ordered].
  intros x _. apply earlier_than_irrefl.
Qed.

(** Two different masters are not processed the same. *)
Lemma masters_apart (ts : list object) (m m' : object) :
  In m (masters_of tes h ts) -> In m' (masters_of tes h ts) ->
  m <> m' -> sp m m' = false.
Proof.
  intros Hm Hm' Hne.
  destruct (ForallOrdPairs_In (masters_ordered ts) m m' Hm Hm')
    as [H | [H | H]].
  - contradiction.
  - apply earlier_than_sp with (ts := ts); auto.
    apply masters_incl, Hm'.
  - rewrite sp_sym. apply earlier_than_sp with (ts := ts); auto.
    apply masters_incl, Hm.
Qed.

(** No member of the group of one master is processed like another
    master. *)
Lemma other_group_apart (ts : list object) (m m' x : object) :
  In m (masters_of tes h ts) -> In m' (masters_of tes h ts) ->
  m <> m' -> In x (group_of ts m') -> sp m x = false.
Proof.
  intros Hm Hm' Hne Hx.
  pose proof (masters_apart ts Hm Hm' Hne) as Hap.
  destruct (group_of_sp Hx) as [-> | Hsp]; auto.
  eapply sp_false_trans; eassumption.
Qed.

(** Every template that has been visited is found in some group. *)
Lemma pick_covers (ts l ms : list object) (x : object) :
  In x l \/ existsb (contains x) (map (group_of ts) ms) = true ->
  existsb (contains x)
          (map (group_of ts) (fold_left (pick tes h ts) l ms)) = true.
Proof.
  revert ms. induction l as [| y l IH]; intros ms Hx; simpl.
  - destruct Hx as [[] | Hx]. exact Hx.
  - apply IH. unfold pick.
    destruct (existsb (contains y) (map (group_of ts) ms)) eqn:Hy.
    + destruct Hx as [[-> | Hx] | Hx]; auto.
    + rewrite map_app, existsb_app. cbn [map existsb].
      destruct Hx as [[-> | Hx] | Hx]; auto.
      * right. rewrite contains_member.
        -- apply orb_true_r.
        -- apply group_of_In. left. reflexivity.
      * right. rewrite Hx. reflexivity.
Qed.

Lemma masters_cover (ts : list object) (x : object) :
  In x ts ->
  exists m, In m (masters_of tes h ts) /\ contains x (group_of ts m) = true.
Proof.
  intros Hx.
  pose proof (pick_covers ts ts [] x (or_introl Hx)) as H.
  apply existsb_exists in H. destruct H as (g & Hg & Hc).
  apply in_map_iff in Hg. destruct Hg as (m & <- & Hm).
  exists m. split; assumption.
Qed.

End GroupingFacts.

(* ===================================================================== *)
(** ** Grouping the groups again *)
(* ===================================================================== *)

Section Regrouping.

Variable tes : Event -> Event -> bool.
Variable h : heap.

Local Abbreviation eq_obj := (obj_eq tes h).
Local Abbreviation sp := obj_same_processing.
Local Abbreviation contains := (list_contains tes h).
Local Abbreviation group_of := (new_group tes h).
Local Abbreviation earlier_than := (not_in_group_of tes h).

(** Among the members of all groups, the slaves of a master that is
    equal to itself are the slaves it had among the templates. *)
Lemma regroup_slaves (ts : list object) (m : object) :
  eq_obj m m = true ->
  In m (masters_of tes h ts) ->
  filter (is_slave tes h m)
         (concat (map (group_of ts) (masters_of tes h ts)))
  = filter (is_slave tes h m) ts.
Proof.
  intros Hrefl Hm.
  pose proof (masters_NoDup tes h ts) as Hnd.
  assert (Hothers : forall l, incl l (masters_of tes h ts) -> ~ In m l ->
            filter (is_slave tes h m) (concat (map (group_of ts) l)) = []).
  { intros l Hl Hnot. apply filter_nil_In. intros x Hx.
    apply in_concat in Hx. destruct Hx as (g & Hg & Hx).
    apply in_map_iff in Hg. destruct Hg as (m' & <- & Hm').
    unfold is_slave.
    rewrite (@other_group_apart tes h ts m m' x); auto.
    intros ->. contradiction. }
  destruct (in_split _ _ Hm) as (l1 & l2 & Hsplit).
  rewrite Hsplit in Hnd. rewrite Hsplit at 1.
  rewrite map_app, concat_app, filter_app. simpl.
  rewrite filter_app.
  rewrite (Hothers l1), (Hothers l2).
  - unfold is_slave at 1. rewrite Hrefl, andb_false_r. simpl.
    rewrite app_nil_r. apply filter_twice.
  - rewrite Hsplit. intros x Hx. apply in_or_app. right. right. exact Hx.
  - apply NoDup_remove_2 in Hnd. intros Hin. apply Hnd, in_or_app.
    right. exact Hin.
  - rewrite Hsplit. intros x Hx. apply in_or_app. left. exact Hx.
  - apply NoDup_remove_2 in Hnd. intros Hin. apply Hnd, in_or_app.
    left. exact Hin.
Qed.

(** Templates that are found in a group already change nothing. *)
Lemma visit_skips (ts l : list object) (acc : list (list object)) :
  (forall s, In s l -> existsb (contains s) acc = true) ->
  fold_left (visit tes h ts) l acc = acc.
Proof.
  induction l as [| s l IH]; intros H; simpl; auto.
  unfold visit at 2. rewrite (H s) by (left; reflexivity).
  apply IH. intros s' Hs'. apply H. right. exact Hs'.
Qed.

Lemma regroup_fold (ts ts' ms before : list object) :
  ForallOrdPairs (earlier_than ts) (before ++ ms) ->
  (forall m, In m ms -> group_of ts' m = group_of ts m) ->
  fold_left (visit tes h ts') (concat (map (group_of ts) ms))
            (map (group_of ts) before)
  = map (group_of ts) (before ++ ms).
Proof.
  revert before. induction ms as [| m ms IH]; intros before Hord Hsame.
  - simpl. rewrite app_nil_r. reflexivity.
  - cbn [map concat]. rewrite fold_left_app.
    change (group_of ts m) with (m :: filter (is_slave tes h m) ts) at 1.
    cbn [fold_left]. unfold visit at 3.
    assert (Hfresh : existsb (contains m) (map (group_of ts) before) = false).
    { apply existsb_false_In. intros g Hg. apply in_map_iff in Hg.
      destruct Hg as (b & <- & Hb).
      apply (ordered_pairs_app _ _ Hord b m Hb). left. reflexivity. }
    rewrite Hfresh, (Hsame m) by (left; reflexivity).
    rewrite (@visit_skips ts' (filter (is_slave tes h m) ts)).
    + change (map (group_of ts) before ++ [group_of ts m])
        with (map (group_of ts) before ++ map (group_of ts) [m]).
      rewrite <- map_app, IH.
      * rewrite <- app_assoc. reflexivity.
      * rewrite <- app_assoc. exact Hord.
      * intros m' Hm'. apply Hsame. right. exact Hm'.
    + intros s Hs. rewrite existsb_app. cbn [existsb].
      rewrite (@contains_member tes h s (group_of ts m)).
      * apply orb_true_r.
      * apply group_of_In. right. apply filter_In in Hs. exact Hs.
Qed.

(** C8 (amended).  When every template of the collection is equal to
    itself, grouping the concatenation of the groups returns the very
    same groups in the very same order. *)
Theorem regrouping_is_stable (ts : list object) :
  (forall x, In x ts -> eq_obj x x = true) ->
  group_templates tes h (concat (group_templates tes h ts))
  = group_templates tes h ts.
Proof.
  intros Hrefl. rewrite (group_templates_masters tes h ts).
  set (ms := masters_of tes h ts). set (ts' := concat (map (group_of ts) ms)).
  assert (Hsame : forall m, In m ms -> group_of ts' m = group_of ts m).
  { intros m Hm. unfold new_group. f_equal. apply regroup_slaves; auto.
    apply Hrefl, (masters_incl tes h ts), Hm. }
  unfold group_templates, build_groups.
  change (@nil (list object)) with (map (group_of ts) []).
  unfold ts' at 2. rewrite regroup_fold; auto.
  - apply drop_empty_groups_nonempty, groups_nonempty.
  - apply masters_ordered.
Qed.

End Regrouping.

(* ===================================================================== *)
(** ** Equal templates in the input *)
(* ===================================================================== *)

Section Duplicates.

Variable tes : Event -> Event -> bool.
Variable h : heap.

Local Abbreviation eq_obj := (obj_eq tes h).
Local Abbreviation sp := obj_same_processing.
Local Abbreviation contains := (list_contains tes h).
Local Abbreviation group_of := (new_group tes h).

(** The head of a group is its master. *)
Lemma head_is_master (ts : list object) (x : object) (rest : list object) :
  In (x :: rest) (group_templates tes h ts) -> In x (masters_of tes h ts).
Proof.
  rewrite group_templates_masters. intros H. apply in_map_iff in H.
  destruct H as (m & Hm & Hin). unfold new_group in Hm.
  inversion Hm; subst. exact Hin.
Qed.

(** A template equal to a master that was visited before it never
    becomes a master. *)
Lemma duplicate_not_master (ts pre mid post : list object) (x y : object) :
  ts = pre ++ x :: mid ++ y :: post ->
  NoDup ts ->
  eq_obj x y = true ->
  In x (masters_of tes h ts) ->
  ~ In y (masters_of tes h ts).
Proof.
  intros Hts Hnd Heq Hx.
  assert (Hsplit : ts = (pre ++ x :: mid) ++ y :: post).
  { rewrite Hts, <- app_assoc. reflexivity. }
  assert (Hy : ~ In y ((pre ++ x :: mid) ++ post)).
  { rewrite Hsplit in Hnd. apply NoDup_remove_2 in Hnd. exact Hnd. }
  assert (Hy1 : ~ In y (pre ++ x :: mid) /\ ~ In y post).
  { split; intros H; apply Hy, in_or_app; auto. }
  assert (Hxn : ~ In x (pre ++ mid ++ y :: post)).
  { rewrite Hts in Hnd. apply NoDup_remove_2 in Hnd. exact Hnd. }
  unfold masters_of in *.
  set (f := pick tes h ts) in *.
  assert (Hfold : fold_left f ts []
            = fold_left f post (f (fold_left f (pre ++ x :: mid) []) y)).
  { rewrite Hsplit at 1.
    exact (fold_left_app f (pre ++ x :: mid) (y :: post) []). }
  rewrite Hfold in *. clear Hfold.
  set (ms1 := fold_left f (pre ++ x :: mid) []) in *.
  destruct (pick_extends tes h ts (pre ++ x :: mid) []) as (n1 & Hn1 & Hi1).
  fold f in Hn1. fold ms1 in Hn1. simpl in Hn1.
  destruct (pick_extends tes h ts post (f ms1 y)) as (n2 & Hn2 & Hi2).
  fold f in Hn2.
  assert (Hx1 : In x ms1).
  { rewrite Hn2 in Hx. apply in_app_or in Hx. destruct Hx as [Hx | Hx].
    - unfold f, pick in Hx.
      destruct (existsb _ _) in Hx; auto.
      apply in_app_or in Hx. destruct Hx as [Hx | [Hx | []]]; auto.
      subst y. exfalso. apply Hxn, in_or_app. right.
      apply in_or_app. right. left. reflexivity.
    - exfalso. apply Hi2 in Hx. apply Hxn, in_or_app. right.
      apply in_or_app. right. right. exact Hx. }
  assert (Hskip : f ms1 y = ms1).
  { unfold f, pick.
    assert (Hc : existsb (contains y) (map (group_of ts) ms1) = true).
    { apply existsb_exists. exists (group_of ts x). split.
      - apply in_map, Hx1.
      - apply contains_equal with (y := x); auto.
        apply group_of_In. left. reflexivity. }
    rewrite Hc. reflexivity. }
  rewrite Hskip in *. rewrite Hn2. intros Hin.
  apply in_app_or in Hin. destruct Hin as [Hin | Hin].
  - rewrite Hn1 in Hin. apply Hi1 in Hin. apply (proj1 Hy1), Hin.
  - apply Hi2 in Hin. apply (proj2 Hy1), Hin.
Qed.

End Duplicates.

Section DuplicateDropped.

Variable tes : Event -> Event -> bool.
Variable h : heap.

Local Abbreviation eq_obj := (obj_eq tes h).
Local Abbreviation sp := obj_same_processing.
Local Abbreviation group_of := (new_group tes h).

(** C9 (amended).  The input holds distinct objects, [x] before [y],
    with [x == y], and [x] is the master of one of the groups.  Then
    [y] is a member of no group, and the groups together are not a
    rearrangement of the input. *)
Theorem later_duplicate_in_no_group
    (ts pre mid post : list object) (x y : object) :
  ts = pre ++ x :: mid ++ y :: post ->
  NoDup (map obj_id ts) ->
  eq_obj x y = true ->
  (exists rest, In (x :: rest) (group_templates tes h ts)) ->
  (forall g e, In g (group_templates tes h ts) -> In e g ->
               obj_id e <> obj_id y)
  /\ ~ Permutation (concat (group_templates tes h ts)) ts.
Proof.
  intros Hts Hid Heq [rest Hhead].
  pose proof (NoDup_map_inv _ _ Hid) as Hnd.
  pose proof (@head_is_master tes h ts x rest Hhead) as Hx.
  pose proof (@duplicate_not_master tes h ts pre mid post x y
                Hts Hnd Heq Hx) as Hy.
  assert (Hyts : In y ts).
  { rewrite Hts. apply in_or_app. right. right.
    apply in_or_app. right. left. reflexivity. }
  assert (Hout : forall g e, In g (group_templates tes h ts) -> In e g ->
                             obj_id e <> obj_id y).
  { intros g e Hg He Hide.
    rewrite group_templates_masters in Hg. apply in_map_iff in Hg.
    destruct Hg as (m & <- & Hm).
    pose proof (@masters_incl tes h ts m Hm) as Hmts.
    assert (Hets : In e ts).
    { apply group_of_In in He. destruct He as [-> | [He _]]; auto. }
    assert (e = y) by (eapply map_id_injective; eauto). subst e.
    apply group_of_In in He. destruct He as [-> | [_ Hslave]].
    - contradiction.
    - unfold is_slave in Hslave.
      rewrite andb_true_iff, negb_true_iff in Hslave.
      destruct Hslave as [Hsp Hne].
      assert (Hmx : m <> x) by (intros ->; congruence).
      pose proof (@masters_apart tes h ts m x Hm Hx Hmx) as Hap.
      assert (Hmx' : sp m x = true).
      { eapply sp_trans; [exact Hsp |].
        rewrite sp_sym. eapply eq_obj_sp; eassumption. }
      congruence. }
  split; [exact Hout |].
  intros Hperm. apply Permutation_sym in Hperm.
  pose proof (Permutation_in y Hperm Hyts) as Hin.
  apply in_concat in Hin. destruct Hin as (g & Hg & Hyg).
  exact (Hout g y Hg Hyg eq_refl).
Qed.

End DuplicateDropped.

(* ===================================================================== *)
(** ** Counting classes *)
(* ===================================================================== *)

(** Templates that are pairwise processed differently, each with a
    partner in [reps'], are at most as many as [reps'] has elements. *)
Lemma representatives_le (reps reps' : list object) :
  ForallOrdPairs (fun r r' => obj_same_processing r r' = false) reps ->
  (forall r, In r reps ->
     exists r', In r' reps' /\ obj_same_processing r r' = true) ->
  (length reps <= length reps')%nat.
Proof.
  revert reps'. induction reps as [| r reps IH]; intros reps' Hord Hmap.
  - simpl. lia.
  - inversion Hord as [| ? ? Hr Hrest]; subst.
    destruct (Hmap r (or_introl eq_refl)) as (r' & Hin' & Hsp).
    destruct (in_split _ _ Hin') as (l1 & l2 & ->).
    assert (Hle : (length reps <= length (l1 ++ l2))%nat).
    { apply IH; auto. intros r2 Hr2.
      destruct (Hmap r2 (or_intror Hr2)) as (r2' & Hin2 & Hsp2).
      exists r2'. split; auto.
      apply in_app_or in Hin2. apply in_or_app.
      destruct Hin2 as [Hin2 | [<- | Hin2]]; auto.
      exfalso. rewrite Forall_forall in Hr. specialize (Hr r2 Hr2).
      assert (obj_same_processing r r2 = true).
      { eapply same_processing_trans; [exact Hsp |].
        unfold obj_same_processing in *.
        rewrite same_processing_sym. exact Hsp2. }
      congruence. }
    rewrite length_app in *. simpl. lia.
Qed.

Lemma ordered_pairs_weaken {A : Type} (R R' : A -> A -> Prop) (l : list A) :
  (forall x y, In x l -> In y l -> R x y -> R' x y) ->
  ForallOrdPairs R l -> ForallOrdPairs R' l.
Proof.
  intros Himp H. induction H as [| a l Ha Hl IH]; constructor.
  - rewrite Forall_forall in *. intros y Hy.
    apply Himp; simpl; auto.
  - apply IH. intros x y Hx Hy. apply Himp; simpl; auto.
Qed.

(* ===================================================================== *)
(** ** Grouping templates that are pairwise distinct *)
(* ===================================================================== *)

Section DistinctTemplates.

Variable tes : Event -> Event -> bool.
Variable h : heap.

Local Abbreviation eq_obj := (obj_eq tes h).
Local Abbreviation sp := obj_same_processing.
Local Abbreviation contains := (list_contains tes h).
Local Abbreviation group_of := (new_group tes h).

Variable ts : list object.
Hypothesis distinct_objects : NoDup (map obj_id ts).
Hypothesis equal_to_itself : forall x, In x ts -> eq_obj x x = true.
Hypothesis fully_distinct :
  forall x y, In x ts -> In y ts -> obj_id x <> obj_id y ->
              eq_obj x y = false.

Lemma distinct_NoDup : NoDup ts.
Proof. eapply NoDup_map_inv. exact distinct_objects. Qed.

Lemma sp_refl (x : object) : In x ts -> sp x x = true.
Proof. intros Hx. eapply eq_obj_sp. apply equal_to_itself, Hx. Qed.

Lemma eq_obj_distinct (x y : object) :
  In x ts -> In y ts -> x <> y -> eq_obj x y = false.
Proof.
  intros Hx Hy Hne. apply fully_distinct; auto.
  intros Hid. apply Hne. eapply map_id_injective; eauto.
Qed.

(** Among the input templates, to be found in a list is to be one of
    its members. *)
Lemma contains_In (x : object) (g : list object) :
  In x ts -> incl g ts -> contains x g = true -> In x g.
Proof.
  intros Hx Hg Hc. apply existsb_exists in Hc.
  destruct Hc as (item & Hitem & Htest).
  assert (item = x); [| subst; assumption].
  apply orb_true_iff in Htest. destruct Htest as [Hid | Heq].
  - apply Nat.eqb_eq in Hid. eapply map_id_injective; eauto.
  - destruct (Nat.eq_dec (obj_id item) (obj_id x)) as [Hid | Hid].
    + eapply map_id_injective; eauto.
    + rewrite fully_distinct in Heq; auto. discriminate.
Qed.

Lemma group_incl (m : object) : In m ts -> incl (group_of ts m) ts.
Proof.
  intros Hm x Hx. apply group_of_In in Hx.
  destruct Hx as [-> | [Hx _]]; auto.
Qed.

Lemma is_slave_other (m x : object) :
  In m ts -> In x ts -> x <> m -> is_slave tes h m x = sp m x.
Proof.
  intros Hm Hx Hne. unfold is_slave.
  rewrite eq_obj_distinct; auto. apply andb_true_r.
Qed.

Lemma is_slave_self (m : object) : In m ts -> is_slave tes h m m = false.
Proof.
  intros Hm. unfold is_slave. rewrite equal_to_itself; auto.
  apply andb_false_r.
Qed.

(** Every template is processed like some master. *)
Lemma masters_represent (x : object) :
  In x ts ->
  exists m, In m (masters_of tes h ts) /\ sp m x = true.
Proof.
  intros Hx. destruct (masters_cover tes h ts x Hx) as (m & Hm & Hc).
  exists m. split; auto.
  pose proof (@masters_incl tes h ts m Hm) as Hmts.
  apply contains_In in Hc; auto using group_incl.
  apply group_of_sp in Hc. destruct Hc as [-> | Hc]; auto using sp_refl.
Qed.

Lemma masters_are_representatives :
  class_representatives ts (masters_of tes h ts).
Proof.
  split; [apply masters_incl |]. split; [apply masters_represent |].
  eapply ordered_pairs_weaken; [| apply masters_ordered].
  intros x y Hx Hy. apply earlier_than_sp.
  apply (@masters_incl tes h ts), Hy.
Qed.

(** The masters come in the order of the input. *)
Lemma pick_subseq (l done ms : list object) :
  subseq ms done ->
  subseq (fold_left (pick tes h ts) l ms) (done ++ l).
Proof.
  revert done ms. induction l as [| x l IH]; intros done ms H; simpl.
  - rewrite app_nil_r. exact H.
  - replace (done ++ x :: l) with ((done ++ [x]) ++ l)
      by (rewrite <- app_assoc; reflexivity).
    apply IH. unfold pick. destruct (existsb _ _).
    + apply subseq_snoc_skip, H.
    + apply subseq_snoc, H.
Qed.

Lemma masters_subseq : subseq (masters_of tes h ts) ts.
Proof. apply (pick_subseq ts (done := [])). constructor. Qed.

(** No template before a master is processed like it. *)
Lemma master_comes_first (pre post : list object) (m : object) :
  ts = pre ++ m :: post ->
  In m (masters_of tes h ts) ->
  forall s, In s pre -> sp m s = false.
Proof.
  intros Hts Hm s Hs.
  pose proof distinct_NoDup as Hnd. rewrite Hts in Hnd.
  apply NoDup_remove_2 in Hnd.
  assert (Hsts : In s ts) by (rewrite Hts; apply in_or_app; auto).
  pose proof (pick_covers tes h ts pre [] s (or_introl Hs)) as Hc.
  apply existsb_exists in Hc. destruct Hc as (g & Hg & Hc).
  apply in_map_iff in Hg. destruct Hg as (m' & <- & Hm').
  assert (Hm'pre : In m' pre).
  { destruct (pick_extends tes h ts pre []) as (n1 & Hn1 & Hi1).
    simpl in Hn1. rewrite Hn1 in Hm'. apply Hi1, Hm'. }
  assert (Hm'ts : In m' ts) by (rewrite Hts; apply in_or_app; auto).
  assert (Hne : m <> m').
  { intros ->. apply Hnd, in_or_app. auto. }
  assert (Hm'ms : In m' (masters_of tes h ts)).
  { unfold masters_of.
    assert (Hfold : fold_left (pick tes h ts) ts []
              = fold_left (pick tes h ts) (m :: post)
                          (fold_left (pick tes h ts) pre [])).
    { rewrite Hts at 2. apply fold_left_app. }
    rewrite Hfold.
    destruct (pick_extends tes h ts (m :: post)
                (fold_left (pick tes h ts) pre [])) as (n2 & -> & _).
    apply in_or_app. left. exact Hm'. }
  pose proof (@masters_apart tes h ts m m' Hm Hm'ms Hne) as Hap.
  apply contains_In in Hc; auto using group_incl.
  apply group_of_sp in Hc. destruct Hc as [-> | Hc]; auto.
  eapply sp_false_trans; eassumption.
Qed.

(** The group of a master is its class, in the order of the input. *)
Lemma group_is_class (m : object) :
  In m (masters_of tes h ts) ->
  group_of ts m = filter (sp m) ts.
Proof.
  intros Hm.
  pose proof (@masters_incl tes h ts m Hm) as Hmts.
  destruct (in_split _ _ Hmts) as (pre & post & Hts).
  pose proof (@master_comes_first pre post m Hts Hm) as Hfirst.
  pose proof distinct_NoDup as Hnd. rewrite Hts in Hnd.
  apply NoDup_remove_2 in Hnd.
  unfold new_group. rewrite Hts at 1 2.
  rewrite !filter_app. cbn [filter].
  rewrite is_slave_self, sp_refl by assumption.
  rewrite (filter_nil_In (sp m) pre) by exact Hfirst.
  rewrite (filter_nil_In (is_slave tes h m) pre).
  - simpl. f_equal. apply filter_ext_in. intros s Hs.
    apply is_slave_other; auto.
    + rewrite Hts. apply in_or_app. right. right. exact Hs.
    + intros ->. apply Hnd, in_or_app. auto.
  - intros s Hs. unfold is_slave. rewrite Hfirst; auto.
Qed.

Lemma groups_NoDup (l : list object) :
  NoDup l -> incl l (masters_of tes h ts) ->
  NoDup (concat (map (group_of ts) l)).
Proof.
  induction 1 as [| m l Hnot Hnd IH]; intros Hincl; cbn [map concat].
  - constructor.
  - assert (Hm : In m (masters_of tes h ts)) by (apply Hincl; left; auto).
    apply NoDup_app.
    + rewrite group_is_class by exact Hm.
      apply NoDup_filter, distinct_NoDup.
    + apply IH. intros x Hx. apply Hincl. right. exact Hx.
    + intros x Hx Hx'. apply in_concat in Hx'.
      destruct Hx' as (g & Hg & Hxg). apply in_map_iff in Hg.
      destruct Hg as (m' & <- & Hm').
      assert (Hne : m' <> m) by (intros ->; contradiction).
      assert (Hm'ms : In m' (masters_of tes h ts))
        by (apply Hincl; right; exact Hm').
      pose proof (@other_group_apart tes h ts m' m x Hm'ms Hm Hne Hx)
        as Hap.
      apply group_of_sp in Hxg. destruct Hxg as [-> | Hsp].
      * rewrite sp_refl in Hap; [discriminate |].
        apply (@masters_incl tes h ts), Hm'ms.
      * congruence.
Qed.

(** The groups together hold every template once. *)
Lemma groups_partition :
  Permutation (concat (group_templates tes h ts)) ts.
Proof.
  rewrite group_templates_masters.
  apply NoDup_Permutation.
  - apply groups_NoDup; [apply masters_NoDup | apply incl_refl].
  - apply distinct_NoDup.
  - intros x. split.
    + intros Hx. apply in_concat in Hx. destruct Hx as (g & Hg & Hx).
      apply in_map_iff in Hg. destruct Hg as (m & <- & Hm).
      eapply group_incl; [| exact Hx].
      apply (@masters_incl tes h ts), Hm.
    + intros Hx. destruct (@masters_represent x Hx) as (m & Hm & Hsp).
      apply in_concat. exists (group_of ts m). split.
      * apply in_map, Hm.
      * rewrite group_is_class by exact Hm.
        apply filter_In. split; assumption.
Qed.

(** C1 (amended).  The input holds distinct objects, each equal to
    itself and no two equal to each other.  Then: there are as many
    groups as the input has same-processing classes, however the
    classes are counted by representatives, and the masters are such
    representatives; no group is empty; the groups together are a
    rearrangement of the input; members of one group are processed the
    same; members of different groups are not; the masters come in the
    order of the input and every group is the class of its master in
    the order of the input, the master at its head.  The empty input
    gives no group. *)
Theorem grouping_partitions_by_processing :
  let out := group_templates tes h ts in
  let masters := masters_of tes h ts in
  (forall reps, class_representatives ts reps -> length out = length reps)
  /\ class_representatives ts masters
  /\ Forall (fun g => g <> []) out
  /\ Permutation (concat out) ts
  /\ (forall g x y, In g out -> In x g -> In y g -> sp x y = true)
  /\ (forall g g' x y, In g out -> In g' out -> g <> g' ->
                       In x g -> In y g' -> sp x y = false)
  /\ subseq masters ts
  /\ out = map (fun m => filter (sp m) ts) masters
  /\ Forall2 (fun m g => exists rest, g = m :: rest) masters out
  /\ (forall g, In g out -> subseq g ts)
  /\ group_templates tes h [] = [].
Proof.
  intros out masters.
  assert (Hout : out = map (group_of ts) masters)
    by apply group_templates_masters.
  assert (Hclass : out = map (fun m => filter (sp m) ts) masters).
  { rewrite Hout. apply map_ext_in. intros m Hm.
    apply group_is_class, Hm. }
  pose proof masters_are_representatives as Hreps. fold masters in Hreps.
  split.
  { intros reps (Hincl & Hcover & Hord).
    destruct Hreps as (Hincl' & Hcover' & Hord').
    rewrite Hout, length_map. apply Nat.le_antisymm.
    - apply representatives_le; auto. intros m Hm.
      destruct (Hcover m (Hincl' m Hm)) as (r & Hr & Hsp).
      exists r. split; auto. rewrite sp_sym. exact Hsp.
    - apply representatives_le; auto. intros r Hr.
      destruct (Hcover' r (Hincl r Hr)) as (m & Hm & Hsp).
      exists m. split; auto. rewrite sp_sym. exact Hsp. }
  split; [exact Hreps |].
  split; [rewrite Hout; apply groups_nonempty |].
  split; [apply groups_partition |].
  split.
  { intros g x y Hg Hx Hy. rewrite Hclass in Hg.
    apply in_map_iff in Hg. destruct Hg as (m & <- & Hm).
    apply filter_In in Hx. apply filter_In in Hy.
    eapply sp_trans; [| apply Hy]. rewrite sp_sym. apply Hx. }
  split.
  { intros g g' x y Hg Hg' Hne Hx Hy. rewrite Hout in Hg, Hg'.
    apply in_map_iff in Hg. destruct Hg as (m & <- & Hm).
    apply in_map_iff in Hg'. destruct Hg' as (m' & <- & Hm').
    assert (Hmm : m <> m') by (intros ->; apply Hne; reflexivity).
    pose proof (@other_group_apart tes h ts m m' y Hm Hm' Hmm Hy) as Hap.
    apply group_of_sp in Hx. destruct Hx as [-> | Hsp]; auto.
    destruct (sp x y) eqn:Hxy; auto.
    rewrite <- Hap. symmetry. eapply sp_trans; eassumption. }
  split; [apply masters_subseq |].
  split; [exact Hclass |].
  split.
  { rewrite Hout. clear. induction masters as [| m l IH]; simpl.
    - constructor.
    - constructor; [eexists; reflexivity | exact IH]. }
  split.
  { intros g Hg. rewrite Hclass in Hg. apply in_map_iff in Hg.
    destruct Hg as (m & <- & _). apply subseq_filter. }
  reflexivity.
Qed.

End DistinctTemplates.

(* ===================================================================== *)
(** ** The properties on the sample objects *)
(* ===================================================================== *)

Import Sample.

Lemma sample_ids_distinct : NoDup (map obj_id [A; B; C]).
Proof.
  simpl. repeat constructor; simpl; intros H;
    repeat (destruct H as [H | H]; [discriminate |]); exact H.
Qed.

Lemma sample_equal_to_itself (x : object) :
  In x [A; B; C] -> obj_eq event_similarity_spec [] x x = true.
Proof. intros [<- | [<- | [<- | []]]]; reflexivity. Qed.

Lemma sample_fully_distinct (x y : object) :
  In x [A; B; C] -> In y [A; B; C] -> obj_id x <> obj_id y ->
  obj_eq event_similarity_spec [] x y = false.
Proof.
  intros [<- | [<- | [<- | []]]] [<- | [<- | [<- | []]]] Hne;
    try reflexivity; exfalso; apply Hne; reflexivity.
Qed.

(** [group_templates([A, B, C])] is [[[A, B], [C]]], with all that the
    theorem on distinct templates says about it. *)
Lemma grouping_partitions_by_processing_witness :
  group_templates event_similarity_spec [] [A; B; C] = [[A; B]; [C]]
  /\ class_representatives [A; B; C] (masters_of event_similarity_spec []
                                                 [A; B; C])
  /\ Permutation (concat (group_templates event_similarity_spec []
                                          [A; B; C])) [A; B; C]
  /\ subseq (masters_of event_similarity_spec [] [A; B; C]) [A; B; C].
Proof.
  destruct (@grouping_partitions_by_processing event_similarity_spec []
              [A; B; C] sample_ids_distinct sample_equal_to_itself
              sample_fully_distinct)
    as (_ & Hreps & _ & Hperm & _ & _ & Hsub & _).
  split; [reflexivity |]. split; [exact Hreps |].
  split; [exact Hperm | exact Hsub].
Defined.

(** A single template whose [prepick] is [nan] is its own slave: the
    input meets what C1 asks of it, one class and nothing to tell apart,
    and the only group holds the template twice. *)
Lemma nan_template_is_grouped_twice :
  NoDup (map obj_id [M_nan])
  /\ (forall x y, In x [M_nan] -> In y [M_nan] -> obj_id x <> obj_id y ->
                  obj_eq event_similarity_spec [] x y = false)
  /\ class_representatives [M_nan] [M_nan]
  /\ group_templates event_similarity_spec [] [M_nan] = [[M_nan; M_nan]]
  /\ ~ Permutation (concat (group_templates event_similarity_spec []
                                            [M_nan])) [M_nan].
Proof.
  split; [repeat constructor; intros [] |].
  split.
  { intros x y [<- | []] [<- | []] Hne. exfalso. apply Hne. reflexivity. }
  split.
  { split; [apply incl_refl |]. split.
    - intros x [<- | []]. exists M_nan. split; [left |]; reflexivity.
    - repeat constructor. }
  split; [reflexivity |].
  intros Hperm. apply Permutation_length in Hperm. discriminate.
Qed.

(** Grouping [A, B, C] and grouping the groups again. *)
Lemma regrouping_is_stable_witness :
  group_templates event_similarity_spec []
    (concat (group_templates event_similarity_spec [] [A; B; C]))
  = group_templates event_similarity_spec [] [A; B; C].
Proof.
  apply (@regrouping_is_stable event_similarity_spec [] [A; B; C]).
  intros x [<- | [<- | [<- | []]]]; reflexivity.
Defined.

(** With the [nan] template the second grouping has one more member. *)
Lemma nan_template_regroups_differently :
  group_templates event_similarity_spec []
    (concat (group_templates event_similarity_spec [] [M_nan]))
  <> group_templates event_similarity_spec [] [M_nan].
Proof.
  intros H. apply (f_equal (map (@length object))) in H.
  vm_compute in H. discriminate.
Qed.

(** [X] and [Y] are equal; behind the master [M], which is processed
    like them, both are taken into its group. *)
Lemma duplicate_behind_master_is_kept :
  obj_eq event_similarity_spec [] X Y = true
  /\ NoDup (map obj_id [M; X; Y])
  /\ group_templates event_similarity_spec [] [M; X; Y] = [[M; X; Y]]
  /\ (exists g, In g (group_templates event_similarity_spec [] [M; X; Y])
                /\ In Y g)
  /\ Permutation (concat (group_templates event_similarity_spec []
                                          [M; X; Y])) [M; X; Y].
Proof.
  split; [reflexivity |].
  split.
  { simpl. repeat constructor; simpl; intros H;
      repeat (destruct H as [H | H]; [discriminate |]); exact H. }
  split; [reflexivity |].
  split.
  - exists [M; X; Y]. split; [left; reflexivity |].
    right. right. left. reflexivity.
  - apply Permutation_refl.
Qed.

(** With [X] at the head of the input, [Y] is dropped. *)
Lemma later_duplicate_in_no_group_witness :
  group_templates event_similarity_spec [] [X; M; Y] = [[X; M]]
  /\ (forall g e, In g (group_templates event_similarity_spec [] [X; M; Y]) ->
                  In e g -> obj_id e <> obj_id Y)
  /\ ~ Permutation (concat (group_templates event_similarity_spec []
                                            [X; M; Y])) [X; M; Y].
Proof.
  split; [reflexivity |].
  apply (@later_duplicate_in_no_group event_similarity_spec []
           [X; M; Y] [] [M] [] X Y).
  - reflexivity.
  - simpl. repeat constructor; simpl; intros H;
      repeat (destruct H as [H | H]; [discriminate |]); exact H.
  - reflexivity.
  - exists [M]. left. reflexivity.
Defined.

(** A template with a stream and an event, its copy, and a second
    template. *)
Lemma equality_reflexive_symmetric_witness :
  let a := with_event in
  let b := set_event (Some 0%nat) (template "b" stream 8) in
  let hp := [an_event] in
  well_formed event_similarity_spec hp a = true
  /\ events_commute event_similarity_spec hp a b
  /\ template_eq event_similarity_spec (snd (copy hp a)) a (fst (copy hp a))
     = true
  /\ template_eq event_similarity_spec hp a a = true
  /\ template_eq event_similarity_spec hp a b
     = template_eq event_similarity_spec hp b a
  /\ same_processing a b = same_processing b a.
Proof.
  intros a b hp.
  assert (Hwf : well_formed event_similarity_spec hp a = true)
    by reflexivity.
  assert (Hcomm : events_commute event_similarity_spec hp a b)
    by reflexivity.
  destruct (@equality_reflexive_symmetric event_similarity_spec hp a b)
    as (Hrefl & Hsym & Hsp).
  destruct (Hrefl Hwf) as (Hcopy & _ & Hself & _).
  repeat split; auto.
Defined.

(** A copy under another name, without waveform and event, and a copy
    with another low cut. *)
Lemma same_processing_ignores_and_detects_witness :
  let t := template "a" stream 8 in
  processing_nan_free t = true
  /\ same_processing t (set_event None (set_prepick (Some (PyInt 1))
                         (set_st StNone (set_name (Some "z"%string)
                            (fst (copy [] t)))))) = true
  /\ In k_lowcut processing_keys
  /\ param_eq (processing_entry k_lowcut t) (Some (PyInt 5)) = false
  /\ same_processing t (set_processing k_lowcut (Some (PyInt 5))
                          (fst (copy [] t))) = false.
Proof.
  intros t.
  destruct (@same_processing_ignores_and_detects [] t) as (Hkeep & Hdet).
  assert (Hnan : processing_nan_free t = true) by reflexivity.
  assert (Hk : In k_lowcut processing_keys) by (left; reflexivity).
  assert (Hne : param_eq (processing_entry k_lowcut t) (Some (PyInt 5))
                = false) by reflexivity.
  split; [exact Hnan |].
  split; [apply (Hkeep Hnan) |].
  split; [exact Hk |]. split; [exact Hne |].
  apply (Hdet k_lowcut (Some (PyInt 5)) Hk Hne).
Defined.

(** Two constructions under the name [a] with one event. *)
Lemma marker_attached_once_witness :
  exists (h' : heap) (e' : Event),
    init_many "me" [an_event] (Some "a"%string) (Some 0%nat)
              [full_call; bare_call] = Ok h'
    /\ deref h' 0%nat = Some e'
    /\ comment_count (marker "a") e' = 1%nat.
Proof.
  destruct (@marker_attached_once "me" [an_event] (Some "a"%string) 0%nat
              an_event [full_call; bare_call])
    as (h' & e' & Hmany & Hd & Hc & _).
  - reflexivity.
  - intros c [<- | [<- | []]]; reflexivity.
  - reflexivity.
  - vm_compute. lia.
  - discriminate.
  - exists h', e'. repeat split; assumption.
Defined.

(** A construction without a name: the caller's event ends with the
    marker [eqcorrscan_template_unnamed]. *)
Lemma init_appends_marker_in_place_witness :
  exists (t : Template) (h' : heap) (e' : Event) (c : Comment),
    init "me" [an_event] None StNone None None None None None None
         (Some 0%nat) = Ok (t, h')
    /\ event t = Some 0%nat
    /\ deref h' 0%nat = Some e'
    /\ comments e' = comments an_event ++ [c]
    /\ text c = "eqcorrscan_template_unnamed"%string.
Proof.
  destruct (@init_appends_marker_in_place "me" [an_event] None StNone
              None None None None None None 0%nat an_event)
    as (t & h' & e' & c & Hinit & Hev & Hd & Hcs & _ & _ & _ & _ & _ & _ & Hun).
  - reflexivity.
  - reflexivity.
  - reflexivity.
  - reflexivity.
  - exists t, h', e', c. repeat split; auto.
Defined.

(* ===================================================================== *)
(** ** Names that the constructor accepts *)
(* ===================================================================== *)

Lemma ident_char_newline : ident_char newline = false.
Proof. reflexivity. Qed.

Lemma match_ident_spec (s : string) (seen : bool) :
  match_ident seen s = true <->
  exists body,
    (seen = true \/ body <> EmptyString)
    /\ all_ident body = true
    /\ (s = body \/ s = (body ++ String newline EmptyString)%string).
Proof.
  revert seen. induction s as [| c r IH]; intros seen; simpl.
  - split.
    + intros ->. exists EmptyString. auto.
    + intros (body & Hseen & _ & [Hs | Hs]).
      * subst body. destruct Hseen; congruence.
      * destruct body; discriminate.
  - destruct (ident_char c) eqn:Hc.
    + rewrite IH. split.
      * intros (body & _ & Hall & Hs). exists (String c body).
        split; [right; discriminate |]. simpl. rewrite Hc, Hall.
        split; [reflexivity |]. destruct Hs as [-> | ->]; auto.
      * intros (body & _ & Hall & Hs). destruct body as [| c' body].
        { simpl in Hs. destruct Hs as [Hs | Hs]; [discriminate |].
          inversion Hs; subst. rewrite ident_char_newline in Hc.
          discriminate. }
        simpl in Hall. apply andb_true_iff in Hall. destruct Hall as [_ Hall].
        exists body. split; [left; reflexivity |]. split; [exact Hall |].
        simpl in Hs. destruct Hs as [Hs | Hs]; inversion Hs; auto.
    + rewrite !andb_true_iff. split.
      * intros [[-> Hnl] Hr]. apply Ascii.eqb_eq in Hnl. subst c.
        destruct r; [| discriminate].
        exists EmptyString. auto.
      * intros (body & Hseen & Hall & Hs). destruct body as [| c' body].
        { simpl in Hs. destruct Hs as [Hs | Hs]; [discriminate |].
          inversion Hs; subst. destruct Hseen as [-> | Hne]; [| congruence].
          rewrite Ascii.eqb_refl. auto. }
        exfalso. simpl in Hall. apply andb_true_iff in Hall.
        destruct Hall as [Hc' _].
        simpl in Hs. destruct Hs as [Hs | Hs]; inversion Hs; congruence.
Qed.

(** X1.  The check of the name in [__init__] accepts exactly the strings
    that consist of one or more characters of the class [[-A-Za-z_0-9]],
    possibly followed by one newline at the very end. *)
Theorem accepted_names (s : string) :
  name_regex_match s = true <->
  exists body,
    body <> EmptyString
    /\ all_ident body = true
    /\ (s = body \/ s = (body ++ String newline EmptyString)%string).
Proof.
  unfold name_regex_match. rewrite match_ident_spec. split.
  - intros (body & [H | H] & Hrest); [discriminate |]. exists body. auto.
  - intros (body & H & Hrest). exists body. auto.
Qed.

(* ===================================================================== *)
(** ** What a construction raises and what it leaves behind *)
(* ===================================================================== *)

Lemma attach_event_no_match_filter_error
    (getuser : string) (h : heap) (nm : string) (ev : option loc) :
  attach_event getuser h nm ev <> Raise MatchFilterError.
Proof.
  unfold attach_event. destruct ev as [l |]; [| discriminate].
  destruct (deref h l) as [e |]; [| discriminate].
  destruct (has_comment (marker nm) e); discriminate.
Qed.

Lemma has_comment_append (txt : string) (e : Event) (c : Comment) :
  has_comment txt (append_comment e c)
  = has_comment txt e || String.eqb txt (text c).
Proof.
  unfold has_comment, append_comment. simpl.
  rewrite map_app, existsb_app. simpl. rewrite orb_false_r. reflexivity.
Qed.

(** What [attach_event] does to the store when it returns. *)
Lemma attach_event_frame
    (getuser : string) (h h' : heap) (nm : string) (l : loc) :
  attach_event getuser h nm (Some l) = Ok h' ->
  exists e e' suffix,
    deref h l = Some e /\ deref h' l = Some e'
    /\ comments e' = comments e ++ suffix
    /\ (length suffix <= 1)%nat
    /\ resource_id e' = resource_id e
    /\ attributes e' = attributes e
    /\ has_comment (marker nm) e' = true
    /\ (forall l', l' <> l -> deref h' l' = deref h l')
    /\ length h' = length h.
Proof.
  unfold attach_event. destruct (deref h l) as [e |] eqn:Hd; [| discriminate].
  destruct (has_comment (marker nm) e) eqn:Hc; intros H; inversion H; subst.
  - exists e, e, []. rewrite app_nil_r. repeat split; auto.
  - exists e, (append_comment e (marker_comment getuser nm)),
      [marker_comment getuser nm].
    split; [reflexivity |].
    split; [eapply deref_store_same; eassumption |].
    repeat split; auto using deref_store_other, length_store.
    rewrite has_comment_append. simpl. rewrite String.eqb_refl.
    apply orb_true_r.
Qed.

Section ConstructionOutcome.

Variable getuser : string.

(** X2.  [__init__] raises [MatchFilterError] in one case only: the name
    passes its check, the waveform is a [Stream], a sampling rate is given
    and some trace of the stream has another one. *)
Theorem init_sampling_rate_mismatch (h : heap) (name : option string)
    (st : waveform) (lc hc sr fo pl pp : param) (ev : option loc) :
  init getuser h name st lc hc sr fo pl pp ev = Raise MatchFilterError <->
  name_accepted name = true
  /\ exists trs rate tr,
       st = StStream trs /\ sr = Some rate /\ In tr trs
       /\ num_eq (sampling_rate tr) rate = false.
Proof.
  unfold init. destruct (name_accepted name); simpl.
  2: { split; [discriminate | intros [H _]; discriminate]. }
  split.
  - intros H. split; [reflexivity |].
    destruct sr as [rate |]; simpl in H.
    + destruct st as [| trs | tr]; simpl in H.
      * destruct (attach_event getuser h (temp_name_of name) ev) eqn:Ha;
          simpl in H; [discriminate |].
        exfalso. eapply attach_event_no_match_filter_error.
        inversion H; subst. exact Ha.
      * destruct (forallb _ trs) eqn:Hall; simpl in H.
        { destruct (attach_event getuser h (temp_name_of name) ev) eqn:Ha;
            simpl in H; [discriminate |].
          exfalso. eapply attach_event_no_match_filter_error.
          inversion H; subst. exact Ha. }
        assert (Hex : existsb (fun tr => negb (num_eq (sampling_rate tr) rate))
                        trs = true).
        { clear H. induction trs as [| tr trs IH]; simpl in *;
            [discriminate |].
          destruct (num_eq (sampling_rate tr) rate); simpl in *; auto. }
        apply existsb_exists in Hex. destruct Hex as (tr & Hin & Hne).
        apply negb_true_iff in Hne.
        exists trs, rate, tr. auto.
      * destruct (data tr); simpl in H; [| discriminate].
        destruct (attach_event getuser h (temp_name_of name) ev) eqn:Ha;
          simpl in H; [discriminate |].
        exfalso. eapply attach_event_no_match_filter_error.
        inversion H; subst. exact Ha.
    + destruct (attach_event getuser h (temp_name_of name) ev) eqn:Ha;
        simpl in H; [discriminate |].
      exfalso. eapply attach_event_no_match_filter_error.
      inversion H; subst. exact Ha.
  - intros [_ (trs & rate & tr & -> & -> & Hin & Hne)]. simpl.
    assert (Hall : forallb (fun tr => num_eq (sampling_rate tr) rate) trs
                   = false).
    { destruct (forallb _ trs) eqn:Hall; auto.
      rewrite forallb_forall in Hall. rewrite Hall in Hne by exact Hin.
      discriminate. }
    rewrite Hall. reflexivity.
Qed.

(** How a successful call decomposes. *)
Lemma init_ok_inv (h h' : heap) (name : option string) (st : waveform)
    (lc hc sr fo pl pp : param) (ev : option loc) (t : Template) :
  init getuser h name st lc hc sr fo pl pp ev = Ok (t, h') ->
  name_accepted name = true
  /\ check_sampling_rates st sr = Ok tt
  /\ attach_event getuser h (temp_name_of name) ev = Ok h'
  /\ t = {| name := name; st := st; lowcut := lc; highcut := hc;
            samp_rate := sr; filt_order := fo; process_length := pl;
            prepick := pp; event := ev |}.
Proof.
  unfold init. destruct (name_accepted name); simpl; [| discriminate].
  destruct (check_sampling_rates st sr) as [[] | e]; simpl; [| discriminate].
  destruct (attach_event getuser h (temp_name_of name) ev) as [h1 | e];
    simpl; [| discriminate].
  intros H. inversion H; subst. auto.
Qed.

(** X3.  Whenever [__init__] returns, the new template holds the
    arguments as they were given, its name, if any, passes the check of
    names, and if it holds a [Stream] together with a sampling rate then
    every trace of the stream has that sampling rate. *)
Theorem init_establishes_invariants (h h' : heap) (nm : option string)
    (w : waveform) (lc hc sr fo pl pp : param) (ev : option loc)
    (t : Template) :
  init getuser h nm w lc hc sr fo pl pp ev = Ok (t, h') ->
  t = {| name := nm; st := w; lowcut := lc; highcut := hc;
         samp_rate := sr; filt_order := fo; process_length := pl;
         prepick := pp; event := ev |}
  /\ name_accepted (name t) = true
  /\ (forall trs rate tr,
        st t = StStream trs -> samp_rate t = Some rate ->
        In tr trs -> num_eq (sampling_rate tr) rate = true).
Proof.
  intros H. apply init_ok_inv in H. destruct H as (Hn & Hs & _ & ->).
  simpl. repeat split; auto.
  intros trs rate tr -> -> Hin. simpl in Hs.
  destruct (forallb _ trs) eqn:Hall; [| discriminate].
  rewrite forallb_forall in Hall. apply Hall, Hin.
Qed.

(** X4.  Whenever [__init__] returns, the store has as many objects as
    before; without an event it is the same store; with an event, every
    other object is as before, and the event keeps its identifier, its
    other content and all its comments in their order, has at most one
    comment more, at the end, and carries the marker of the name. *)
Theorem init_store_frame (h h' : heap) (name : option string)
    (st : waveform) (lc hc sr fo pl pp : param) (ev : option loc)
    (t : Template) :
  init getuser h name st lc hc sr fo pl pp ev = Ok (t, h') ->
  length h' = length h
  /\ (ev = None -> h' = h)
  /\ (forall l, ev = Some l ->
        exists e e' suffix,
          deref h l = Some e /\ deref h' l = Some e'
          /\ comments e' = comments e ++ suffix
          /\ (length suffix <= 1)%nat
          /\ resource_id e' = resource_id e
          /\ attributes e' = attributes e
          /\ has_comment (marker (temp_name_of name)) e' = true
          /\ (forall l', l' <> l -> deref h' l' = deref h l')).
Proof.
  intros H. apply init_ok_inv in H. destruct H as (_ & _ & Ha & _).
  destruct ev as [l |].
  - destruct (attach_event_frame _ _ _ _ Ha)
      as (e & e' & suffix & H1 & H2 & H3 & H4 & H5 & H6 & H7 & H8 & H9).
    split; [exact H9 |]. split; [discriminate |].
    intros l0 Hl0. inversion Hl0; subst l0.
    exists e, e', suffix. repeat split; auto.
  - simpl in Ha. inversion Ha; subst.
    split; [reflexivity |]. split; [reflexivity | discriminate].
Qed.

End ConstructionOutcome.

(* ===================================================================== *)
(** ** One event under several names *)
(* ===================================================================== *)

Lemma marker_injective (a b : string) : marker a = marker b -> a = b.
Proof. unfold marker. simpl. intros H. inversion H. reflexivity. Qed.

Lemma marker_eqb (a b : string) :
  String.eqb (marker a) (marker b) = String.eqb a b.
Proof.
  destruct (String.eqb a b) eqn:Hab.
  - apply String.eqb_eq in Hab. subst. apply String.eqb_refl.
  - apply String.eqb_neq. intros H. apply marker_injective in H.
    apply String.eqb_neq in Hab. contradiction.
Qed.

Section SeveralNames.

Variable getuser : string.

(** A construction whose checks pass returns, and the event carries the
    marker afterwards. *)
Lemma init_returns (h : heap) (nm : option string) (w : waveform)
    (lc hc sr fo pl pp : param) (l : loc) (e : Event) :
  name_accepted nm = true ->
  check_sampling_rates w sr = Ok tt ->
  deref h l = Some e ->
  exists t h' e',
    init getuser h nm w lc hc sr fo pl pp (Some l) = Ok (t, h')
    /\ deref h' l = Some e'
    /\ has_comment (marker (temp_name_of nm)) e' = true.
Proof.
  intros Hn Hs Hd.
  destruct (has_comment (marker (temp_name_of nm)) e) eqn:Hc.
  - destruct (init_marked getuser h nm w lc hc sr fo pl pp l Hn Hs Hd Hc)
      as (t & Hinit & _).
    exists t, h, e. auto.
  - destruct (init_unmarked getuser h nm w lc hc sr fo pl pp l Hn Hs Hd Hc)
      as (t & Hinit & _).
    exists t. eexists. eexists. split; [exact Hinit |].
    split; [eapply deref_store_same; eassumption |].
    rewrite has_comment_append. simpl. rewrite String.eqb_refl.
    apply orb_true_r.
Qed.

(** X5.  The marker is made from the name, and from [unnamed] when there
    is none.  So two names that give the same marker text, such as no
    name and the name [unnamed], share one marker: after a construction
    under the first, a construction under the second returns and leaves
    the store as it found it. *)
Theorem names_with_one_marker (h : heap) (n1 n2 : option string)
    (w1 w2 : waveform) (lc1 hc1 sr1 fo1 pl1 pp1 : param)
    (lc2 hc2 sr2 fo2 pl2 pp2 : param) (l : loc) (e : Event) :
  temp_name_of n1 = temp_name_of n2 ->
  name_accepted n1 = true -> name_accepted n2 = true ->
  check_sampling_rates w1 sr1 = Ok tt ->
  check_sampling_rates w2 sr2 = Ok tt ->
  deref h l = Some e ->
  exists t1 h1 t2,
    init getuser h n1 w1 lc1 hc1 sr1 fo1 pl1 pp1 (Some l) = Ok (t1, h1)
    /\ init getuser h1 n2 w2 lc2 hc2 sr2 fo2 pl2 pp2 (Some l) = Ok (t2, h1).
Proof.
  intros Hsame Hn1 Hn2 Hs1 Hs2 Hd.
  destruct (init_returns h n1 w1 lc1 hc1 sr1 fo1 pl1 pp1 l Hn1 Hs1 Hd)
    as (t1 & h1 & e1 & Hinit1 & Hd1 & Hc1).
  rewrite Hsame in Hc1.
  destruct (init_marked getuser h1 n2 w2 lc2 hc2 sr2 fo2 pl2 pp2 l
              Hn2 Hs2 Hd1 Hc1) as (t2 & Hinit2 & _).
  exists t1, h1, t2. auto.
Qed.

(** X6.  Two names with different marker texts do not share: when the
    event carries neither marker, a construction under the first name and
    then one under the second leave the event with its earlier comments
    followed by the marker of the first and the marker of the second. *)
Theorem names_with_two_markers (h : heap) (n1 n2 : option string)
    (w1 w2 : waveform) (lc1 hc1 sr1 fo1 pl1 pp1 : param)
    (lc2 hc2 sr2 fo2 pl2 pp2 : param) (l : loc) (e : Event) :
  temp_name_of n1 <> temp_name_of n2 ->
  name_accepted n1 = true -> name_accepted n2 = true ->
  check_sampling_rates w1 sr1 = Ok tt ->
  check_sampling_rates w2 sr2 = Ok tt ->
  deref h l = Some e ->
  has_comment (marker (temp_name_of n1)) e = false ->
  has_comment (marker (temp_name_of n2)) e = false ->
  exists t1 h1 t2 h2 e2,
    init getuser h n1 w1 lc1 hc1 sr1 fo1 pl1 pp1 (Some l) = Ok (t1, h1)
    /\ init getuser h1 n2 w2 lc2 hc2 sr2 fo2 pl2 pp2 (Some l) = Ok (t2, h2)
    /\ deref h2 l = Some e2
    /\ comments e2
       = comments e ++ [marker_comment getuser (temp_name_of n1);
                        marker_comment getuser (temp_name_of n2)].
Proof.
  intros Hdiff Hn1 Hn2 Hs1 Hs2 Hd Hc1 Hc2.
  destruct (init_unmarked getuser h n1 w1 lc1 hc1 sr1 fo1 pl1 pp1 l
              Hn1 Hs1 Hd Hc1) as (t1 & Hinit1 & _).
  set (e1 := append_comment e (marker_comment getuser (temp_name_of n1))).
  set (h1 := store h l e1) in *.
  assert (Hd1 : deref h1 l = Some e1)
    by (eapply deref_store_same; eassumption).
  assert (Hc21 : has_comment (marker (temp_name_of n2)) e1 = false).
  { unfold e1. rewrite has_comment_append, Hc2.
    cbn [text marker_comment orb]. rewrite marker_eqb.
    apply String.eqb_neq. congruence. }
  destruct (init_unmarked getuser h1 n2 w2 lc2 hc2 sr2 fo2 pl2 pp2 l
              Hn2 Hs2 Hd1 Hc21) as (t2 & Hinit2 & _).
  exists t1, h1, t2. eexists. eexists.
  split; [exact Hinit1 |]. split; [exact Hinit2 |].
  split; [eapply deref_store_same; eassumption |].
  simpl. rewrite <- app_assoc. reflexivity.
Qed.

(** X14.  A copy has an event of its own: the copy refers to a new object
    with the content of the original's event, the objects that were in
    the store are as before, and a later construction with the event of
    the copy, which may append a marker to it, leaves the event of the
    original as it was. *)
Theorem copy_is_independent (h : heap) (t : Template) (l : loc) (e : Event)
    (nm : option string) (w : waveform) (lc hc sr fo pl pp : param)
    (t2 : Template) (h2 : heap) :
  event t = Some l ->
  deref h l = Some e ->
  init getuser (snd (copy h t)) nm w lc hc sr fo pl pp
       (event (fst (copy h t))) = Ok (t2, h2) ->
  event (fst (copy h t)) = Some (length h)
  /\ length h <> l
  /\ deref (snd (copy h t)) (length h) = Some e
  /\ (forall l', (l' < length h)%nat ->
                 deref (snd (copy h t)) l' = deref h l')
  /\ deref h2 l = Some e.
Proof.
  intros Hev Hd Hinit.
  assert (Hlt : (l < length h)%nat).
  { unfold deref in Hd. apply nth_error_Some. congruence. }
  unfold copy in *. rewrite Hev, Hd in *. simpl in *.
  assert (Hold : forall l', (l' < length h)%nat ->
                            deref (h ++ [e]) l' = deref h l').
  { intros l' Hl'. unfold deref. apply nth_error_app1. exact Hl'. }
  split; [reflexivity |]. split; [lia |].
  split.
  { unfold deref. rewrite nth_error_app2 by lia.
    rewrite Nat.sub_diag. reflexivity. }
  split; [exact Hold |].
  apply init_ok_inv in Hinit. destruct Hinit as (_ & _ & Ha & _).
  destruct (attach_event_frame _ _ _ _ Ha)
    as (e0 & e' & suffix & _ & _ & _ & _ & _ & _ & _ & Hother & _).
  rewrite Hother by lia. rewrite Hold by exact Hlt. exact Hd.
Qed.

End SeveralNames.

(* ===================================================================== *)
(** ** What equality requires and what it overlooks *)
(* ===================================================================== *)

Lemma name_eq_true (a b : option string) : name_eq a b = true -> a = b.
Proof.
  destruct a, b; simpl; try discriminate; auto.
  intros H. apply String.eqb_eq in H. congruence.
Qed.

Lemma st_agrees_is_stream (v w : waveform) :
  st_agrees v w = true -> is_stream v = is_stream w.
Proof. destruct v, w; simpl; auto; discriminate. Qed.

Lemma param_eq_nan (x y : param) :
  param_is_nan x = true -> param_eq x y = false /\ param_eq y x = false.
Proof.
  destruct x as [[z | [| s | q]] |]; simpl; try discriminate. intros _.
  destruct y as [[z | [| s | q]] |]; simpl; auto.
Qed.

Section EqualityExtras.

Variable tes : Event -> Event -> bool.
Variable h : heap.

(** X7.  Two templates that [__eq__] finds equal have the same name, are
    processed the same, have equal prepicks, both hold a [Stream] or
    neither does, and both have an event or neither has. *)
Theorem equal_templates_agree (a b : Template) :
  template_eq tes h a b = true ->
  name a = name b
  /\ same_processing a b = true
  /\ param_eq (prepick a) (prepick b) = true
  /\ is_stream (st a) = is_stream (st b)
  /\ (get_event h a = None <-> get_event h b = None).
Proof.
  intros H. pose proof (template_eq_same_processing _ _ _ _ H) as Hsp.
  rewrite template_eq_spec, !andb_true_iff in H.
  destruct H as (Hn & Hst & _ & _ & _ & _ & _ & Hpp & Hev).
  split; [apply name_eq_true, Hn |]. split; [exact Hsp |].
  split; [exact Hpp |]. split; [apply st_agrees_is_stream, Hst |].
  unfold event_agrees in Hev.
  destruct (get_event h a), (get_event h b); try discriminate;
    split; intros; congruence.
Qed.

(** X9.  A template that holds a [Stream] and one that does not are
    never equal, whichever is asked. *)
Theorem stream_against_other_waveform (a b : Template) :
  is_stream (st a) = true -> is_stream (st b) = false ->
  template_eq tes h a b = false /\ template_eq tes h b a = false.
Proof.
  intros Ha Hb. rewrite !template_eq_spec.
  destruct (st a) as [| ta | ta]; try discriminate.
  destruct (st b) as [| tb | tb]; try discriminate; simpl;
    rewrite !andb_false_r; auto.
Qed.

(** X10.  When neither template holds a [Stream], the waveforms are not
    compared at all: the answer of [__eq__] stays the same whatever
    other objects that are not streams are put in their place. *)
Theorem other_waveforms_are_not_compared
    (a b : Template) (v v' w w' : waveform) :
  is_stream v = false -> is_stream v' = false ->
  is_stream w = false -> is_stream w' = false ->
  template_eq tes h (set_st v a) (set_st w b)
  = template_eq tes h (set_st v' a) (set_st w' b).
Proof.
  intros Hv Hv' Hw Hw'. rewrite !template_eq_spec.
  unfold event_agrees, get_event.
  cbn [set_st name st lowcut highcut samp_rate filt_order process_length
       prepick event].
  rewrite !st_agrees_without_stream; auto;
    intros trs Heq; subst; discriminate.
Qed.

(** X11.  [__eq__] sorts the streams of both templates in place.  A
    stream that an earlier comparison has left sorted gives the same
    answers as the stream as it was, on either side of [==]. *)
Theorem sorting_in_place_is_not_seen (t u : Template) (a : list Trace) :
  stream_sort (stream_sort a) = stream_sort a
  /\ template_eq tes h (set_st (StStream (stream_sort a)) t) u
     = template_eq tes h (set_st (StStream a) t) u
  /\ template_eq tes h u (set_st (StStream (stream_sort a)) t)
     = template_eq tes h u (set_st (StStream a) t).
Proof.
  split; [apply stream_sort_idempotent |]. apply template_eq_sorted.
Qed.

(** X13.  A template with [nan] as [prepick] or as a processing
    parameter is equal to no template, itself included; with [nan] as a
    processing parameter it is processed the same as none. *)
Theorem nan_is_equal_to_nothing (a b : Template) :
  (param_is_nan (prepick a) = true \/ processing_nan_free a = false ->
     template_eq tes h a b = false /\ template_eq tes h b a = false)
  /\ (processing_nan_free a = false ->
        same_processing a b = false /\ same_processing b a = false).
Proof.
  assert (Hsp : processing_nan_free a = false ->
                same_processing a b = false /\ same_processing b a = false).
  { unfold processing_nan_free. rewrite !same_processing_spec.
    rewrite !andb_false_iff, !negb_false_iff.
    intros [[[[H | H] | H] | H] | H].
    - destruct (param_eq_nan _ (lowcut b) H) as [H1 H2]. tauto.
    - destruct (param_eq_nan _ (highcut b) H) as [H1 H2]. tauto.
    - destruct (param_eq_nan _ (samp_rate b) H) as [H1 H2]. tauto.
    - destruct (param_eq_nan _ (filt_order b) H) as [H1 H2]. tauto.
    - destruct (param_eq_nan _ (process_length b) H) as [H1 H2]. tauto. }
  split; [| exact Hsp].
  intros [H | H].
  - destruct (param_eq_nan _ (prepick b) H) as [H1 H2].
    rewrite !template_eq_spec, H1, H2. simpl. rewrite ?andb_false_r. auto.
  - destruct (Hsp H) as [H1 H2]. split.
    + destruct (template_eq tes h a b) eqn:E; auto.
      apply template_eq_same_processing in E. congruence.
    + destruct (template_eq tes h b a) eqn:E; auto.
      apply template_eq_same_processing in E. congruence.
Qed.

End EqualityExtras.

(** X8.  [same_processing] is transitive, and two templates that are
    processed the same are each processed the same as themselves: on the
    templates that it relates at all, it is an equivalence. *)
Theorem same_processing_partial_equivalence (a b c : Template) :
  (same_processing a b = true -> same_processing b c = true ->
     same_processing a c = true)
  /\ (same_processing a b = true ->
        same_processing a a = true /\ same_processing b b = true).
Proof.
  split; [apply same_processing_trans |].
  intros H. assert (H' : same_processing b a = true)
    by (rewrite same_processing_sym; exact H).
  split; eapply same_processing_trans; eassumption.
Qed.

(** X12.  [zip] ends with the shorter stream.  When the sorted stream of
    one template continues the sorted stream of the other, which is free
    of [nan], the two waveforms agree for [__eq__], in both directions;
    an empty [Stream] agrees with every [Stream]. *)
Theorem shorter_stream_decides (a b rest : list Trace) :
  (forall tr, In tr b -> trace_nan_free tr = true) ->
  stream_sort a = stream_sort b ++ rest ->
  st_agrees (StStream a) (StStream b) = true
  /\ st_agrees (StStream b) (StStream a) = true
  /\ st_agrees (StStream a) (StStream []) = true.
Proof.
  intros Hnan Hsort.
  assert (H : st_agrees (StStream a) (StStream b) = true).
  { simpl. rewrite Hsort. apply zip_agrees_prefix.
    intros tr Hin. apply Hnan, stream_sort_In, Hin. }
  split; [exact H |]. split; [rewrite st_agrees_sym; exact H |].
  simpl. destruct (stream_sort a); reflexivity.
Qed.

(* ===================================================================== *)
(** ** Template.construct: what it raises, what it returns *)
(* ===================================================================== *)

Lemma existsb_eqb_In (x : string) (l : list string) :
  existsb (String.eqb x) l = true <-> In x l.
Proof.
  rewrite existsb_exists. split.
  - intros (y & Hy & Heq). apply String.eqb_eq in Heq. subst. exact Hy.
  - intros H. exists x. split; [exact H | apply String.eqb_refl].
Qed.

Lemma existsb_eqb_not_In (x : string) (l : list string) :
  ~ In x l -> existsb (String.eqb x) l = false.
Proof.
  intros H. destruct (existsb (String.eqb x) l) eqn:E; auto.
  apply existsb_eqb_In in E. contradiction.
Qed.

(** X15.  [construct] refuses the four methods of [Tribe.construct] with
    [NotImplementedError] before anything else happens, whatever
    [template_gen] would have done.  For every other method an exception
    of [template_gen] comes out unchanged, and an empty list of streams,
    events or process lengths ends in [IndexError]. *)
Theorem construct_raises (self : Template) (method : string)
    (nm : option string) (lc hc sr fo pp : param)
    (tg : result (list (list Trace) * list (option loc) * list param)) :
  (In method unsupported_methods ->
     construct self method nm lc hc sr fo pp tg = Raise NotImplementedError)
  /\ (~ In method unsupported_methods ->
        (forall e, tg = Raise e ->
           construct self method nm lc hc sr fo pp tg = Raise e)
        /\ (forall streams events pls,
              tg = Ok (streams, events, pls) ->
              streams = [] \/ events = [] \/ pls = [] ->
              construct self method nm lc hc sr fo pp tg
              = Raise IndexError)).
Proof.
  unfold construct. split.
  - intros H. apply existsb_eqb_In in H. rewrite H. reflexivity.
  - intros H. rewrite (existsb_eqb_not_In _ _ H). split.
    + intros e ->. reflexivity.
    + intros streams events pls -> Hempty. simpl.
      destruct streams as [| s ss]; [reflexivity |].
      destruct events as [| ev evs]; [reflexivity |].
      destruct pls as [| p ps]; [reflexivity |].
      destruct Hempty as [H0 | [H0 | H0]]; discriminate.
Qed.

(** X16.  For a method that is not refused and non-empty lists from
    [template_gen], [construct] returns.  The template has the name and
    the filter parameters of the call, unchecked, the first event and the
    first process length of [template_gen], and of the first stream the
    traces with a sample that is not zero in half precision, in their
    order; nothing of what the template held before is left. *)
Theorem construct_returns (self self' : Template) (method : string)
    (nm : option string) (lc hc sr fo pp : param)
    (s : list Trace) (ss : list (list Trace))
    (ev : option loc) (evs : list (option loc))
    (p : param) (ps : list param) :
  ~ In method unsupported_methods ->
  exists t kept,
    construct self method nm lc hc sr fo pp (Ok (s :: ss, ev :: evs, p :: ps))
    = Ok t
    /\ construct self' method nm lc hc sr fo pp
         (Ok (s :: ss, ev :: evs, p :: ps)) = Ok t
    /\ name t = nm /\ lowcut t = lc /\ highcut t = hc /\ samp_rate t = sr
    /\ filt_order t = fo /\ prepick t = pp
    /\ process_length t = p /\ event t = ev
    /\ st t = StStream kept
    /\ subseq kept s
    /\ (forall tr, In tr kept <-> In tr s /\ any_float16 tr = true).
Proof.
  intros H. unfold construct. rewrite (existsb_eqb_not_In _ _ H). simpl.
  eexists. exists (drop_zero_traces s).
  repeat (split; [reflexivity |]).
  split; [apply subseq_filter |]. intros tr. apply filter_In.
Qed.

Section PruningFacts.

Variable trace_eq : Trace -> Trace -> bool.

Lemma remove_trace_here (tr : nat * Trace) (pre post : list (nat * Trace)) :
  (forall x, In x pre ->
     (fst x =? fst tr)%nat || trace_eq (snd x) (snd tr) = false) ->
  remove_trace trace_eq tr (pre ++ tr :: post) = Ok (pre ++ post).
Proof.
  induction pre as [| x pre IH]; intros H; simpl.
  - rewrite Nat.eqb_refl. reflexivity.
  - rewrite (H x) by (left; reflexivity).
    rewrite IH; [reflexivity |]. intros y Hy. apply H. right. exact Hy.
Qed.

Lemma pruning_loop_from (done rest : list (nat * Trace)) :
  (forall x y, In x (done ++ rest) -> In y (done ++ rest) ->
     trace_eq (snd x) (snd y) = true ->
     any_float16 (snd x) = any_float16 (snd y)) ->
  (forall x y, In x (done ++ rest) -> In y (done ++ rest) ->
     fst x = fst y -> snd x = snd y) ->
  fold_left (fun acc tr => cur <- acc ;;
                           if any_float16 (snd tr) then Ok cur
                           else remove_trace trace_eq tr cur)
            rest
            (Ok (filter (fun x => any_float16 (snd x)) done ++ rest))
  = Ok (filter (fun x => any_float16 (snd x)) (done ++ rest)).
Proof.
  revert done. induction rest as [| tr rest IH]; intros done Heq Hid.
  - simpl. rewrite !app_nil_r. reflexivity.
  - cbn [fold_left bind].
    assert (Hnext : (done ++ [tr]) ++ rest = done ++ tr :: rest)
      by (rewrite <- app_assoc; reflexivity).
    destruct (any_float16 (snd tr)) eqn:Hf.
    + rewrite <- Hnext.
      replace (filter (fun x => any_float16 (snd x)) done ++ tr :: rest)
        with (filter (fun x => any_float16 (snd x)) (done ++ [tr]) ++ rest).
      * apply IH; rewrite Hnext; assumption.
      * rewrite filter_app. simpl. rewrite Hf, <- app_assoc. reflexivity.
    + rewrite remove_trace_here.
      * rewrite <- Hnext.
        replace (filter (fun x => any_float16 (snd x)) done)
          with (filter (fun x => any_float16 (snd x)) (done ++ [tr])).
        -- apply IH; rewrite Hnext; assumption.
        -- rewrite filter_app. simpl. rewrite Hf. apply app_nil_r.
      * intros x Hx. apply filter_In in Hx. destruct Hx as [Hx Hfx].
        assert (Hxin : In x (done ++ tr :: rest))
          by (apply in_or_app; left; exact Hx).
        assert (Htin : In tr (done ++ tr :: rest))
          by (apply in_or_app; right; left; reflexivity).
        apply orb_false_iff. split.
        -- apply Nat.eqb_neq. intros Hsame.
           pose proof (Hid x tr Hxin Htin Hsame) as Hs. congruence.
        -- destruct (trace_eq (snd x) (snd tr)) eqn:He; auto.
           pose proof (Heq x tr Hxin Htin He). congruence.
Qed.

(** X17.  The loop of [construct] that removes traces from the stream
    while it walks it.  When traces that are equal have samples that are
    zero in half precision together, and the identity of a trace fixes
    its content, the loop returns, and what is left are the traces with a
    sample that is not zero in half precision, in their order: the
    outcome of [drop_zero_traces]. *)
Theorem pruning_loop_filters (st : list (nat * Trace)) :
  (forall x y, In x st -> In y st ->
     trace_eq (snd x) (snd y) = true ->
     any_float16 (snd x) = any_float16 (snd y)) ->
  (forall x y, In x st -> In y st -> fst x = fst y -> snd x = snd y) ->
  exists kept,
    pruning_loop trace_eq st = Ok kept
    /\ kept = filter (fun x => any_float16 (snd x)) st
    /\ map snd kept = drop_zero_traces (map snd st).
Proof.
  intros Heq Hid. eexists. split; [| split; [reflexivity |]].
  - apply (pruning_loop_from [] st); assumption.
  - unfold drop_zero_traces. clear.
    induction st as [| x st IH]; simpl; auto.
    destruct (any_float16 (snd x)); simpl; rewrite IH; reflexivity.
Qed.

End PruningFacts.

(* ===================================================================== *)
(** ** Template.read and read_template *)
(* ===================================================================== *)

Lemma read_single (self t0 : Template) : read self (Ok [t0]) = Ok t0.
Proof. destruct t0. reflexivity. Qed.

Lemma read_ok_inv (self : Template) (tribe : result (list Template))
    (t : Template) :
  read self tribe = Ok t -> tribe = Ok [t].
Proof.
  destruct tribe as [[| t0 [| t1 ts]] | e]; try discriminate.
  rewrite read_single. congruence.
Qed.

(** X25.  [read] returns in one case only, when the archive holds
    exactly one template, and then the template ends up with every entry
    of the stored one, whatever it held before.  More than one stored
    template is an [IOError], none an [IndexError], and an exception of
    the loading comes out unchanged. *)
Theorem read_outcome (self : Template) (tribe : result (list Template)) :
  (forall t, read self tribe = Ok t <-> tribe = Ok [t])
  /\ (forall e, tribe = Raise e -> read self tribe = Raise e)
  /\ (tribe = Ok [] -> read self tribe = Raise IndexError)
  /\ (forall t0 t1 ts, tribe = Ok (t0 :: t1 :: ts) ->
                       read self tribe = Raise IOError).
Proof.
  split; [| split; [| split]].
  - intros t. split.
    + apply read_ok_inv.
    + intros ->. apply read_single.
  - intros e ->. reflexivity.
  - intros ->. reflexivity.
  - intros t0 t1 ts ->. reflexivity.
Qed.

(** X26.  [read_template] returns in one case only, when the archive
    holds exactly one template; it returns that template, unchecked and
    with no marker added to its event, and the store is as before. *)
Theorem read_template_outcome (getuser : string) (h h' : heap)
    (tribe : result (list Template)) (t : Template) :
  read_template getuser h tribe = Ok (t, h') <-> tribe = Ok [t] /\ h' = h.
Proof.
  unfold read_template. simpl.
  destruct (read _ tribe) as [t' |] eqn:Hr; simpl.
  - apply read_ok_inv in Hr. split.
    + intros H. inversion H; subst. auto.
    + intros [-> ->]. inversion Hr. reflexivity.
  - split; [discriminate |]. intros [-> _].
    rewrite read_single in Hr. discriminate.
Qed.

(* ===================================================================== *)
(** ** group_templates on any input *)
(* ===================================================================== *)

Lemma subseq_length {A : Type} (l1 l2 : list A) :
  subseq l1 l2 -> (length l1 <= length l2)%nat.
Proof. induction 1; simpl; lia. Qed.

Section AnyInput.

Variable tes : Event -> Event -> bool.
Variable h : heap.

Local Abbreviation eq_obj := (obj_eq tes h).
Local Abbreviation sp := obj_same_processing.
Local Abbreviation group_of := (new_group tes h).

Lemma build_groups_masters (ts : list object) :
  build_groups tes h ts = map (group_of ts) (masters_of tes h ts).
Proof.
  unfold build_groups, masters_of.
  change (@nil (list object)) with (map (group_of ts) []).
  apply fold_visit_pick.
Qed.

Lemma masters_in_order (ts : list object) :
  subseq (masters_of tes h ts) ts.
Proof. apply (@pick_subseq tes h ts ts [] []). constructor. Qed.

(** X18.  No group that [group_templates] builds is empty, on any input:
    the closing loop, which removes empty groups, never removes one, and
    the result is the list of groups as the main loop built it. *)
Theorem no_group_is_empty (ts : list object) :
  Forall (fun g => g <> []) (group_templates tes h ts)
  /\ group_templates tes h ts = build_groups tes h ts.
Proof.
  rewrite group_templates_masters, build_groups_masters.
  split; [apply groups_nonempty | reflexivity].
Qed.

(** X19.  On any input the groups hold input templates only.  Their
    heads, the masters, are different templates that come in the order of
    the input, so there are at most as many groups as templates, and
    behind its master a group holds templates in the order of the
    input. *)
Theorem groups_are_drawn_from_the_input (ts : list object) :
  (forall g x, In g (group_templates tes h ts) -> In x g -> In x ts)
  /\ (length (group_templates tes h ts) <= length ts)%nat
  /\ exists masters,
       subseq masters ts /\ NoDup masters
       /\ Forall2 (fun m g => exists rest, g = m :: rest /\ subseq rest ts)
                  masters (group_templates tes h ts).
Proof.
  rewrite group_templates_masters.
  pose proof (masters_in_order ts) as Hsub.
  split; [| split].
  - intros g x Hg Hx. apply in_map_iff in Hg. destruct Hg as (m & <- & Hm).
    apply group_of_In in Hx. destruct Hx as [-> | [Hx _]]; auto.
    eapply subseq_In; eassumption.
  - rewrite length_map. apply subseq_length, Hsub.
  - exists (masters_of tes h ts).
    split; [exact Hsub |]. split; [apply masters_NoDup |].
    clear Hsub. generalize (masters_of tes h ts). intros l.
    induction l as [| m l IH]; simpl; constructor; [| exact IH].
    eexists. split; [reflexivity | apply subseq_filter].
Qed.

(** X20.  On any input every template is found in some group the way
    [in] finds it: a member of the group is that very object or is equal
    to it. *)
Theorem every_template_is_found (ts : list object) (x : object) :
  In x ts ->
  exists g item,
    In g (group_templates tes h ts) /\ In item g
    /\ (obj_id item = obj_id x \/ eq_obj item x = true).
Proof.
  intros Hx. rewrite group_templates_masters.
  destruct (masters_cover tes h ts x Hx) as (m & Hm & Hc).
  apply existsb_exists in Hc. destruct Hc as (item & Hitem & Htest).
  exists (group_of ts m), item.
  split; [apply in_map, Hm |]. split; [exact Hitem |].
  apply orb_true_iff in Htest. destruct Htest as [Hid | Heq]; auto.
  left. apply Nat.eqb_eq, Hid.
Qed.

(** X21.  On any input a group is a master followed by slaves; every
    slave is an input template that is processed the same as the master
    and not equal to it, and any two slaves of a group are processed the
    same. *)
Theorem slaves_share_processing (ts g : list object) :
  In g (group_templates tes h ts) ->
  exists m rest,
    g = m :: rest /\ In m ts
    /\ (forall x, In x rest ->
          In x ts /\ sp m x = true /\ eq_obj m x = false)
    /\ (forall x y, In x rest -> In y rest -> sp x y = true).
Proof.
  rewrite group_templates_masters. intros Hg.
  apply in_map_iff in Hg. destruct Hg as (m & <- & Hm).
  assert (Hslave : forall x, In x (filter (is_slave tes h m) ts) ->
                     In x ts /\ sp m x = true /\ eq_obj m x = false).
  { intros x Hx. apply filter_In in Hx. destruct Hx as [Hx Hs].
    unfold is_slave in Hs. rewrite andb_true_iff, negb_true_iff in Hs.
    tauto. }
  exists m, (filter (is_slave tes h m) ts).
  split; [reflexivity |]. split; [apply (@masters_incl tes h ts), Hm |].
  split; [exact Hslave |].
  intros x y Hx Hy. apply Hslave in Hx. apply Hslave in Hy.
  eapply sp_trans; [| apply Hy]. rewrite sp_sym. apply Hx.
Qed.

(** X22.  On any input two different groups cannot be merged: the master
    of one is processed the same as no member of the other. *)
Theorem groups_cannot_merge (ts g g' : list object)
    (m y : object) (rest : list object) :
  In g (group_templates tes h ts) -> In g' (group_templates tes h ts) ->
  g <> g' -> g = m :: rest -> In y g' ->
  sp m y = false /\ sp y m = false.
Proof.
  rewrite group_templates_masters. intros Hg Hg' Hne Hhead Hy.
  apply in_map_iff in Hg. destruct Hg as (m0 & <- & Hm0).
  apply in_map_iff in Hg'. destruct Hg' as (m' & <- & Hm').
  unfold new_group in Hhead. inversion Hhead; subst m0.
  assert (Hmm : m <> m') by (intros ->; apply Hne; reflexivity).
  pose proof (@other_group_apart tes h ts m m' y Hm0 Hm' Hmm Hy) as Hap.
  split; [exact Hap | rewrite sp_sym; exact Hap].
Qed.

(** X24.  On any input that is not empty the first group is headed by
    the first template. *)
Theorem first_template_heads_first_group (t0 : object) (rest : list object) :
  exists slaves others,
    group_templates tes h (t0 :: rest) = (t0 :: slaves) :: others.
Proof.
  rewrite group_templates_masters. unfold masters_of. simpl.
  unfold pick at 2. simpl.
  destruct (pick_extends tes h (t0 :: rest) rest [t0]) as (new & -> & _).
  simpl. eexists. eexists. reflexivity.
Qed.

(** X23.  When every template of the input is processed the same as the
    first, there is one group, headed by the first template; a later
    template is among the slaves exactly when it is not equal to the
    first. *)
Theorem uniform_input_gives_one_group (t0 : object) (rest : list object) :
  (forall x, In x rest -> sp t0 x = true) ->
  exists slaves,
    group_templates tes h (t0 :: rest) = [t0 :: slaves]
    /\ (forall x, In x rest -> (In x slaves <-> eq_obj t0 x = false)).
Proof.
  intros Hsp. exists (filter (is_slave tes h t0) (t0 :: rest)). split.
  - unfold group_templates, build_groups. cbn [fold_left].
    change (visit tes h (t0 :: rest) [] t0)
      with [group_of (t0 :: rest) t0].
    rewrite visit_skips.
    + apply drop_empty_groups_nonempty. repeat constructor. discriminate.
    + intros s Hs. apply existsb_exists.
      exists (group_of (t0 :: rest) t0). split; [left; reflexivity |].
      destruct (eq_obj t0 s) eqn:Heq.
      * apply contains_equal with (y := t0); auto.
        apply group_of_In. left. reflexivity.
      * apply contains_member, group_of_In. right.
        split; [right; exact Hs |].
        unfold is_slave. rewrite (Hsp s Hs), Heq. reflexivity.
  - intros x Hx. rewrite filter_In. unfold is_slave.
    rewrite (Hsp x Hx). cbn [andb]. rewrite negb_true_iff. split.
    + tauto.
    + intros Heq. split; [right; exact Hx | exact Heq].
Qed.

End AnyInput.

(* ===================================================================== *)
(** ** The further properties on sample objects *)
(* ===================================================================== *)

Import Cases.

(** A construction with a stream sampled at 100 Hz and an event. *)
Lemma init_establishes_invariants_witness :
  exists t h',
    init "me" [an_event] (Some "a"%string) stream None None
         (Some (PyInt 100)) None None None (Some 0%nat) = Ok (t, h')
    /\ name_accepted (name t) = true
    /\ (forall trs rate tr,
          st t = StStream trs -> samp_rate t = Some rate ->
          In tr trs -> num_eq (sampling_rate tr) rate = true).
Proof.
  destruct (init "me" [an_event] (Some "a"%string) stream None None
              (Some (PyInt 100)) None None None (Some 0%nat))
    as [[t h'] | e] eqn:H.
  - exists t, h'. split; [reflexivity |].
    apply (init_establishes_invariants _ _ _ _ _ _ _ _ _ _ _ H).
  - vm_compute in H. discriminate.
Defined.

Lemma init_store_frame_witness :
  exists t h',
    init "me" [an_event; marked_event "a"] (Some "a"%string) StNone
         None None None None None None (Some 0%nat) = Ok (t, h')
    /\ length h' = 2%nat
    /\ deref h' 1%nat = Some (marked_event "a").
Proof.
  destruct (init "me" [an_event; marked_event "a"] (Some "a"%string) StNone
              None None None None None None (Some 0%nat))
    as [[t h'] | e] eqn:H.
  - exists t, h'. split; [reflexivity |].
    destruct (init_store_frame _ _ _ _ _ _ _ _ _ _ _ H) as (Hlen & _ & Hev).
    split; [exact Hlen |].
    destruct (Hev 0%nat eq_refl)
      as (e0 & e' & suffix & _ & _ & _ & _ & _ & _ & _ & Hother).
    rewrite Hother by discriminate. reflexivity.
  - vm_compute in H. discriminate.
Defined.

(** No name first, the name [unnamed] second. *)
Lemma names_with_one_marker_witness :
  exists t1 h1 t2,
    init "me" [an_event] None StNone None None None None None None
         (Some 0%nat) = Ok (t1, h1)
    /\ init "me" h1 (Some "unnamed"%string) stream None None None None None
            None (Some 0%nat) = Ok (t2, h1).
Proof.
  apply (@names_with_one_marker "me" [an_event] None (Some "unnamed"%string)
           StNone stream None None None None None None
           None None None None None None 0%nat an_event); reflexivity.
Defined.

(** The names [a] and [b]. *)
Lemma names_with_two_markers_witness :
  exists t1 h1 t2 h2 e2,
    init "me" [an_event] (Some "a"%string) StNone None None None None None
         None (Some 0%nat) = Ok (t1, h1)
    /\ init "me" h1 (Some "b"%string) StNone None None None None None None
            (Some 0%nat) = Ok (t2, h2)
    /\ deref h2 0%nat = Some e2
    /\ comments e2
       = comments an_event ++ [marker_comment "me" "a"; marker_comment "me" "b"].
Proof.
  apply (@names_with_two_markers "me" [an_event] (Some "a"%string)
           (Some "b"%string) StNone StNone None None None None None None
           None None None None None None 0%nat an_event);
    try reflexivity.
  discriminate.
Defined.

Lemma copy_is_independent_witness :
  event (fst (copy [an_event] with_event)) = Some 1%nat
  /\ deref (snd (copy [an_event] with_event)) 1%nat = Some an_event
  /\ exists t2 h2,
       init "me" (snd (copy [an_event] with_event)) (Some "c"%string) StNone
            None None None None None None
            (event (fst (copy [an_event] with_event))) = Ok (t2, h2)
       /\ deref h2 0%nat = Some an_event.
Proof.
  destruct (init "me" (snd (copy [an_event] with_event)) (Some "c"%string)
              StNone None None None None None None
              (event (fst (copy [an_event] with_event))))
    as [[t2 h2] | e] eqn:H.
  - destruct (@copy_is_independent "me" [an_event] with_event 0%nat an_event
                (Some "c"%string) StNone None None None None None None
                t2 h2 eq_refl eq_refl H) as (H1 & _ & H3 & _ & H5).
    split; [exact H1 |]. split; [exact H3 |].
    exists t2, h2. split; [reflexivity | exact H5].
  - vm_compute in H. discriminate.
Defined.

Lemma equal_templates_agree_witness :
  name (template "a" stream 8) = name (template "a" stream 8)
  /\ same_processing (template "a" stream 8) (template "a" stream 8) = true.
Proof.
  destruct (@equal_templates_agree event_similarity_spec []
              (template "a" stream 8) (template "a" stream 8) eq_refl)
    as (H1 & H2 & _).
  split; assumption.
Defined.

Lemma same_processing_partial_equivalence_witness :
  same_processing (obj_dict A) (obj_dict M) = true
  /\ same_processing (obj_dict A) (obj_dict A) = true.
Proof.
  destruct (same_processing_partial_equivalence
              (obj_dict A) (obj_dict B) (obj_dict M)) as [Htrans Hrefl].
  split; [apply Htrans; reflexivity | apply Hrefl; reflexivity].
Defined.

Lemma stream_against_other_waveform_witness :
  template_eq event_similarity_spec [] (template "a" stream 8)
              (template "a" (StTrace tr_z) 8) = false
  /\ template_eq event_similarity_spec [] (template "a" (StTrace tr_z) 8)
                 (template "a" stream 8) = false.
Proof.
  apply (@stream_against_other_waveform event_similarity_spec []
           (template "a" stream 8) (template "a" (StTrace tr_z) 8));
    reflexivity.
Defined.

Lemma other_waveforms_are_not_compared_witness :
  template_eq event_similarity_spec []
    (set_st StNone (template "a" stream 8))
    (set_st StNone (template "a" stream 8))
  = template_eq event_similarity_spec []
      (set_st (StTrace tr_z) (template "a" stream 8))
      (set_st (StTrace tr_n) (template "a" stream 8)).
Proof.
  apply (@other_waveforms_are_not_compared event_similarity_spec []
           (template "a" stream 8) (template "a" stream 8)
           StNone (StTrace tr_z) StNone (StTrace tr_n)); reflexivity.
Defined.

Lemma shorter_stream_decides_witness :
  st_agrees (StStream [tr_z; tr_n]) (StStream [tr_n]) = true
  /\ st_agrees (StStream [tr_n]) (StStream [tr_z; tr_n]) = true
  /\ st_agrees (StStream [tr_z; tr_n]) (StStream []) = true.
Proof.
  apply (@shorter_stream_decides [tr_z; tr_n] [tr_n] [tr_z]).
  - intros tr [<- | []]. reflexivity.
  - reflexivity.
Defined.

Lemma nan_is_equal_to_nothing_witness :
  template_eq event_similarity_spec [] (obj_dict M_nan) (obj_dict M_nan)
  = false.
Proof.
  destruct (@nan_is_equal_to_nothing event_similarity_spec []
              (obj_dict M_nan) (obj_dict M_nan)) as [Heq _].
  apply Heq. left. reflexivity.
Defined.

Lemma not_refused_from_sac : ~ In "from_sac"%string unsupported_methods.
Proof.
  simpl. intros H.
  repeat (destruct H as [H | H]; [discriminate |]). exact H.
Qed.

Lemma construct_raises_witness :
  construct (template "a" stream 8) "from_seishub" (Some "b"%string)
            None None None None None
            (Ok ([[tr_z]], [None], [None])) = Raise NotImplementedError
  /\ construct (template "a" stream 8) "from_sac" (Some "b"%string)
               None None None None None
               (Ok ([], [None], [None])) = Raise IndexError.
Proof.
  split.
  - destruct (construct_raises (template "a" stream 8) "from_seishub"
                (Some "b"%string) None None None None None
                (Ok ([[tr_z]], [None], [None]))) as [H _].
    apply H. right. left. reflexivity.
  - destruct (construct_raises (template "a" stream 8) "from_sac"
                (Some "b"%string) None None None None None
                (Ok ([], [None], [None]))) as [_ H].
    destruct (H not_refused_from_sac) as [_ Hidx].
    apply (Hidx [] [None] [None] eq_refl). left. reflexivity.
Defined.

Lemma construct_returns_witness :
  exists t kept,
    construct (template "a" stream 8) "from_sac" (Some "b"%string)
              None None (Some (PyInt 100)) None None
              (Ok ([[tr_zero; tr_z; tr_tiny]], [None], [Some (PyInt 300)]))
    = Ok t
    /\ st t = StStream kept /\ kept = [tr_z]
    /\ process_length t = Some (PyInt 300).
Proof.
  destruct (@construct_returns (template "a" stream 8) (template "a" stream 8)
              "from_sac" (Some "b"%string) None None (Some (PyInt 100))
              None None [tr_zero; tr_z; tr_tiny] [] None []
              (Some (PyInt 300)) [] not_refused_from_sac)
    as (t & kept & Hc & _ & _ & _ & _ & _ & _ & _ & Hpl & _ & Hst & _).
  exists t, kept. split; [exact Hc |]. split; [exact Hst |].
  split; [| exact Hpl].
  vm_compute in Hc. inversion Hc; subst. simpl in Hst.
  inversion Hst. reflexivity.
Defined.

Lemma pruning_loop_filters_witness :
  exists kept,
    pruning_loop trace_equal
      [(1%nat, tr_zero); (2%nat, tr_z); (3%nat, tr_tiny); (4%nat, tr_zero)]
    = Ok kept
    /\ kept = [(2%nat, tr_z)].
Proof.
  destruct (@pruning_loop_filters trace_equal
              [(1%nat, tr_zero); (2%nat, tr_z); (3%nat, tr_tiny);
               (4%nat, tr_zero)]) as (kept & Hloop & Hkept & _).
  - intros x y [<- | [<- | [<- | [<- | []]]]] [<- | [<- | [<- | [<- | []]]]] He;
      try reflexivity; vm_compute in He; discriminate.
  - intros x y [<- | [<- | [<- | [<- | []]]]] [<- | [<- | [<- | [<- | []]]]] Hi;
      try reflexivity; discriminate.
  - exists kept. split; [exact Hloop |]. rewrite Hkept. reflexivity.
Defined.

Lemma every_template_is_found_witness :
  exists g item,
    In g (group_templates event_similarity_spec [] [A; B; C]) /\ In item g
    /\ (obj_id item = obj_id B
        \/ obj_eq event_similarity_spec [] item B = true).
Proof.
  apply (@every_template_is_found event_similarity_spec [] [A; B; C] B).
  right. left. reflexivity.
Defined.

Lemma slaves_share_processing_witness :
  exists m rest,
    [A; B] = m :: rest /\ In m [A; B; C]
    /\ (forall x, In x rest ->
          In x [A; B; C] /\ obj_same_processing m x = true
          /\ obj_eq event_similarity_spec [] m x = false)
    /\ (forall x y, In x rest -> In y rest ->
                    obj_same_processing x y = true).
Proof.
  apply (@slaves_share_processing event_similarity_spec [] [A; B; C] [A; B]).
  left. reflexivity.
Defined.

Lemma groups_cannot_merge_witness :
  obj_same_processing A C = false /\ obj_same_processing C A = false.
Proof.
  apply (@groups_cannot_merge event_similarity_spec [] [A; B; C]
           [A; B] [C] A C [B]).
  - left. reflexivity.
  - right. left. reflexivity.
  - discriminate.
  - reflexivity.
  - left. reflexivity.
Defined.

Lemma uniform_input_gives_one_group_witness :
  exists slaves,
    group_templates event_similarity_spec [] [M; X; Y] = [M :: slaves]
    /\ (forall x, In x [X; Y] ->
          (In x slaves <-> obj_eq event_similarity_spec [] M x = false)).
Proof.
  apply (@uniform_input_gives_one_group event_similarity_spec [] M [X; Y]).
  intros x [<- | [<- | []]]; reflexivity.
Defined.
